(** * NLP workshop notebook: text normalisation and label encoding

    A shallow embedding of the pure parts of
    [notebook/techlabs_nlp_workshop.ipynb]:

    - [remove_repetitions] and the two regular expressions it runs,
    - [preprocess_movie_data] (structural filter, field coalescing,
      language filter, cleaning, [int] conversion),
    - [split_dataset] as the notebook ships it,
    - [num_to_one_hot], [y_to_one_hot] and [keras_transform_data].

    Python [str] values are modelled as lists of characters with code
    points below 256; Python [int] values as [Z]; a raised exception as
    the left injection of a sum. *)

From Stdlib Require Import String List Ascii ZArith Lia Bool Arith DecimalString.
Import ListNotations.

#[local] Abbreviation length := List.length.

Set Implicit Arguments.

(** ** Python values and exceptions *)

Definition str := list ascii.

(** A literal: ["ha"] of Python written [lit "ha"]. *)
Definition lit (s : string) : str := list_ascii_of_string s.

Definition newline : ascii := "010"%char.
Definition space : ascii := " "%char.

Definition str_eqb (a b : str) : bool :=
  if list_eq_dec ascii_dec a b then true else false.

Inductive exn : Type :=
| AttributeError (msg : string)
| IndexError (msg : string)
| ValueError (msg : string)
| TypeError (msg : string).

(** The outcome of a Python call: an exception or a value. *)
Definition result (A : Type) : Type := (exn + A)%type.

Definition ret {A} (a : A) : result A := inr a.
Definition raise {A} (e : exn) : result A := inl e.
Definition bind {A B} (m : result A) (f : A -> result B) : result B :=
  match m with
  | inl e => inl e
  | inr a => f a
  end.

Notation "x <- m ;; k" := (bind m (fun x => k))
  (at level 61, m at next level, right associativity).

(** ** The backtracking matcher of [re]

    Only the constructs the two patterns of the notebook use.  A match
    attempt returns the list of all the ways the expression matches at a
    state, in the order a backtracking matcher tries them: the head of
    the list is the match [re] reports. *)

Module Regex.

Inductive regex : Type :=
| Bol                                   (* ^  (no MULTILINE) *)
| Eol                                   (* $  (no MULTILINE) *)
| Any                                   (* .  (no DOTALL) *)
| Group (n : nat) (r : regex)           (* ( r ), numbered n *)
| Backref (n : nat)                     (* \n *)
| Seq (r1 r2 : regex)
| Repeat (lo : nat) (hi : option nat) (greedy : bool) (r : regex).

(** Where the matcher stands: [pos] characters consumed, [rest] still
    to read, and the groups captured so far (latest first). *)
Record mstate : Type := MState {
  pos : nat;
  rest : str;
  groups : list (nat * str)
}.

Fixpoint lookup (n : nat) (gs : list (nat * str)) : option str :=
  match gs with
  | [] => None
  | (m, v) :: gs' => if Nat.eqb m n then Some v else lookup n gs'
  end.

(** [strip_prefix p s] is [Some t] when [s = p ++ t]. *)
Fixpoint strip_prefix (p s : str) : option str :=
  match p, s with
  | [], _ => Some s
  | _ :: _, [] => None
  | a :: p', b :: s' => if Ascii.eqb a b then strip_prefix p' s' else None
  end.

Definition is_newline (c : ascii) : bool := Ascii.eqb c newline.

(** The repetition [r{lo,hi}], greedy or lazy, of a body [m].  [fuel]
    bounds the number of iterations; [exec] gives one more than the
    number of characters left, which no run of iterations that each
    consume a character can exceed. *)
Fixpoint repeat_from (m : mstate -> list mstate) (greedy : bool)
    (lo : nat) (hi : option nat) (fuel : nat) (st : mstate)
    {struct fuel} : list mstate :=
  match fuel with
  | O => []
  | S fuel' =>
      let again :=
        flat_map (repeat_from m greedy (Nat.pred lo) (option_map Nat.pred hi) fuel')
                 (m st) in
      match lo, hi with
      | S _, _ => again
      | O, Some O => [st]
      | O, _ => if greedy then again ++ [st] else st :: again
      end
  end.

Fixpoint exec (r : regex) (st : mstate) : list mstate :=
  match r with
  | Bol => if Nat.eqb (pos st) 0 then [st] else []
  | Eol =>
      match rest st with
      | [] => [st]
      | [c] => if is_newline c then [st] else []
      | _ => []
      end
  | Any =>
      match rest st with
      | [] => []
      | c :: t =>
          if is_newline c then []
          else [MState (S (pos st)) t (groups st)]
      end
  | Group n r1 =>
      map (fun st' =>
             MState (pos st') (rest st')
                    ((n, firstn (pos st' - pos st) (rest st)) :: groups st'))
          (exec r1 st)
  | Backref n =>
      match lookup n (groups st) with
      | None => []
      | Some g =>
          match strip_prefix g (rest st) with
          | None => []
          | Some t => [MState (pos st + length g) t (groups st)]
          end
      end
  | Seq r1 r2 => flat_map (exec r2) (exec r1 st)
  | Repeat lo hi greedy r1 =>
      repeat_from (exec r1) greedy lo hi (S (length (rest st))) st
  end.

(** [re.search]: the first match at the leftmost start that has one. *)
Fixpoint search_from (r : regex) (i : nat) (s : str) : option mstate :=
  match exec r (MState i s []) with
  | m :: _ => Some m
  | [] =>
      match s with
      | [] => None
      | _ :: s' => search_from r (S i) s'
      end
  end.

Definition search (r : regex) (s : str) : option mstate := search_from r 0 s.

(** [m.group(n)]: [None] for a group that took no part in the match. *)
Definition group (m : mstate) (n : nat) : option str := lookup n (groups m).

End Regex.

Import Regex.

(** ** [remove_repetitions] *)

(** [r"^(.+?).{0,2}\1+?$"] *)
Definition REPEATER_fast : regex :=
  Seq Bol
   (Seq (Group 1 (Repeat 1 None false Any))
    (Seq (Repeat 0 (Some 2) true Any)
     (Seq (Repeat 1 None false (Backref 1))
      Eol))).

(** [r"^(.+?)(.{0,2}\1)+?$"] *)
Definition REPEATER_exact : regex :=
  Seq Bol
   (Seq (Group 1 (Repeat 1 None false Any))
    (Seq (Repeat 1 None false
            (Group 2 (Seq (Repeat 0 (Some 2) true Any) (Backref 1))))
      Eol)).

Definition remove_repetitions (s : str) : result (option str) :=
  match search REPEATER_fast s with
  | Some _ =>
      match search REPEATER_exact s with
      | Some match_exact => ret (group match_exact 1)
      | None => raise (AttributeError "'NoneType' object has no attribute 'group'")
      end
  | None => ret (Some s)
  end.

(** ** [preprocess_movie_data] *)

(** [l[i]] for a non-negative index. *)
Definition getitem {A} (l : list A) (i : nat) : result A :=
  match nth_error l i with
  | Some a => ret a
  | None => raise (IndexError "list index out of range")
  end.

(** [x in [' ', '']] *)
Definition in_blank (x : str) : bool :=
  existsb (str_eqb x) [lit " "; lit ""].

(** [sep.join(l)] *)
Fixpoint join (sep : str) (l : list str) : str :=
  match l with
  | [] => []
  | [a] => a
  | a :: l' => a ++ sep ++ join sep l'
  end.

(** [s.replace(old, new)] for one-character [old] and [new]. *)
Definition replace (old new : ascii) (s : str) : str :=
  map (fun c => if Ascii.eqb c old then new else c) s.

(** The characters [int] skips around the digits, among the code points
    below 256: the blanks of ASCII, and the two other characters of that
    range that Unicode counts as white space. *)
Definition is_int_space (c : ascii) : bool :=
  let n := nat_of_ascii c in
  ((9 <=? n) && (n <=? 13)) || (n =? 32) || (n =? 133) || (n =? 160).

Fixpoint lstrip (s : str) : str :=
  match s with
  | c :: t => if is_int_space c then lstrip t else s
  | [] => []
  end.

Definition strip (s : str) : str := rev (lstrip (rev (lstrip s))).

Definition is_digit (c : ascii) : bool :=
  let n := nat_of_ascii c in (48 <=? n) && (n <=? 57).

Definition digit_value (c : ascii) : Z := Z.of_nat (nat_of_ascii c - 48).

(** Decimal digits, single underscores allowed between two digits. *)
Fixpoint parse_digits (acc : Z) (after_digit : bool) (s : str) : option Z :=
  match s with
  | [] => if after_digit then Some acc else None
  | c :: t =>
      if is_digit c then parse_digits (10 * acc + digit_value c) true t
      else if Ascii.eqb c "_"%char then
        if after_digit then parse_digits acc false t else None
      else None
  end.

(** [int(s)] on a string, base 10.  The message of the [ValueError]
    leaves out the quoted literal.  As in the Python 3.9.6 the notebook
    names as its kernel, the number of digits is not limited. *)
Definition py_int (s : str) : result Z :=
  let invalid := raise (ValueError "invalid literal for int() with base 10") in
  match strip s with
  | c :: t =>
      if Ascii.eqb c "-"%char then
        match parse_digits 0 false t with
        | Some v => ret (- v)%Z
        | None => invalid
        end
      else if Ascii.eqb c "+"%char then
        match parse_digits 0 false t with
        | Some v => ret v
        | None => invalid
        end
      else
        match parse_digits 0 false (c :: t) with
        | Some v => ret v
        | None => invalid
        end
  | [] => invalid
  end.

(** [tokenize_and_transform] as the notebook ships it: the spaCy pipe is
    created (a generator, never consumed) and the empty list returned. *)
Definition tokenize_and_transform (text : str)
    (stemming lemmatization stopword_removal punctuation_removal : bool)
    : list str :=
  let transformed_text := [] in
  transformed_text.

(** One entry of the list [preprocess_movie_data] returns:
    [[row[0], int(row[1]), movie_review, tokens]]. *)
Record review : Type := Review {
  url : str;
  stars : Z;
  text : str;
  tokens : list str
}.

Section Preprocess.

(** [langid_model.classify(text)[0]]: the language code predicted by the
    external language identifier. *)
Variable classify_lang : str -> str.

(** The two tests at the head of the loop body that [continue]. *)
Definition structural_reject (row : list str) : result bool :=
  if length row <? 3 then ret true
  else
    r0 <- getitem row 0 ;;
    r1 <- getitem row 1 ;;
    r2 <- getitem row 2 ;;
    ret (in_blank r0 || in_blank r1 || in_blank r2).

(** [if len(row) > 3: row = [row[0], row[1], ' '.join(row[2:])]] *)
Definition coalesce (row : list str) : result (list str) :=
  if 3 <? length row then
    r0 <- getitem row 0 ;;
    r1 <- getitem row 1 ;;
    ret [r0; r1; join (lit " ") (skipn 2 row)]
  else ret row.

(** [remove_repetitions(t).replace("\n", " ")] *)
Definition clean_text (t : str) : result str :=
  r <- remove_repetitions t ;;
  match r with
  | Some u => ret (replace newline space u)
  | None => raise (AttributeError "'NoneType' object has no attribute 'replace'")
  end.

(** One turn of the loop: [None] when the row is skipped by a
    [continue], [Some] of the record appended otherwise. *)
Definition process_row (enable_langid : bool) (row : list str)
    : result (option review) :=
  skip <- structural_reject row ;;
  if skip then ret None
  else
    row <- coalesce row ;;
    r2 <- getitem row 2 ;;
    if enable_langid && negb (str_eqb (classify_lang r2) (lit "de"))
    then ret None
    else
      movie_review <- clean_text r2 ;;
      let tokens := tokenize_and_transform movie_review true true true true in
      r0 <- getitem row 0 ;;
      r1 <- getitem row 1 ;;
      n <- py_int r1 ;;
      ret (Some (Review r0 n movie_review tokens)).

Fixpoint preprocess_loop (enable_langid : bool) (rows : list (list str))
    (preprocessed_data : list review) : result (list review) :=
  match rows with
  | [] => ret preprocessed_data
  | row :: rows' =>
      o <- process_row enable_langid row ;;
      match o with
      | Some r => preprocess_loop enable_langid rows' (preprocessed_data ++ [r])
      | None => preprocess_loop enable_langid rows' preprocessed_data
      end
  end.

Definition preprocess_movie_data (movie_data : list (list str))
    (enable_langid : bool) : result (list review) :=
  preprocess_loop enable_langid movie_data [].

End Preprocess.

(** ** [split_dataset] *)

(** The dictionary [split_data]; a value [None] of Python is [None]. *)
Record data_split (X Y : Type) : Type := DataSplit {
  x_train : option (list X);
  x_val : option (list X);
  x_test : option (list X);
  y_train : option (list Y);
  y_val : option (list Y);
  y_test : option (list Y)
}.

(** The notebook leaves both calls to scikit-learn as exercises: the six
    entries are bound to [None]. *)
Definition split_dataset {X Y : Type} (x : list X) (y : list Y)
    (random_seed : Z) : data_split X Y :=
  let '(x_train, x_val_test, y_train, y_val_test) :=
    (@None (list X), @None (list X), @None (list Y), @None (list Y)) in
  let '(x_val, x_test, y_val, y_test) :=
    (@None (list X), @None (list X), @None (list Y), @None (list Y)) in
  DataSplit x_train x_val x_test y_train y_val y_test.

(** ** One-hot encoding *)

Local Open Scope Z_scope.

(** [[v] * n]: empty for a negative [n]. *)
Definition list_times {A} (v : A) (n : Z) : list A := repeat v (Z.to_nat n).

Fixpoint update {A} (l : list A) (i : nat) (v : A) : list A :=
  match l, i with
  | [], _ => []
  | _ :: t, O => v :: t
  | a :: t, S i' => a :: update t i' v
  end.

(** [l[i] = v]: a negative index counts from the end. *)
Definition setitem {A} (l : list A) (i : Z) (v : A) : result (list A) :=
  let n := Z.of_nat (length l) in
  if (i <? - n) || (n <=? i)
  then raise (IndexError "list assignment index out of range")
  else ret (update l (Z.to_nat (if i <? 0 then i + n else i)) v).

Definition num_to_one_hot (num length : Z) : result (list Z) :=
  let one_hot := list_times 0 length in
  setitem one_hot num 1.

(** *** Arrays of numpy

    [np.array(l)] on a list stacks the elements of [l] into one array
    when they all have one shape, and (from numpy 1.24 on) raises a
    [ValueError] when they do not.  [shape_of] is the shape numpy finds
    for an object: [[]] for an object that is no sequence, [[n]] for a
    flat sequence of [n] numbers, and [None] for a nested sequence that
    is itself ragged. *)

Class Shaped (A : Type) : Type := shape_of : A -> option (list nat).

(** No object of this kind. *)
#[export] Instance Shaped_Empty_set : Shaped Empty_set :=
  fun o => match o with end.

(** An object that is no sequence, such as [None]. *)
#[export] Instance Shaped_unit : Shaped unit := fun _ => Some [].

(** A flat sequence of numbers. *)
#[export] Instance Shaped_vector : Shaped (list Z) :=
  fun v => Some [length v].

(** The error of [np.array] on elements of different shapes; of its
    message, the first sentence. *)
Definition inhomogeneous : exn :=
  ValueError "setting an array element with a sequence.".

Definition has_shape (s : list nat) (t : option (list nat)) : bool :=
  match t with
  | Some s' => if list_eq_dec Nat.eq_dec s' s then true else false
  | None => false
  end.

Definition np_array {A} (shape : A -> option (list nat)) (l : list A)
    : result (list A) :=
  match l with
  | [] => ret []
  | a :: l' =>
      match shape a with
      | None => raise inhomogeneous
      | Some s =>
          if forallb (fun b => has_shape s (shape b)) l' then ret l
          else raise inhomogeneous
      end
  end.

(** *** [y_to_one_hot] *)

(** An element of [y]: an [int] (left) or any other object (right),
    which the comprehension of [y_to_one_hot] passes through. *)
Fixpoint one_hot_entries {O : Type} (y : list (Z + O)) (length : Z)
    : result (list (list Z + O)) :=
  match y with
  | [] => ret []
  | e :: y' =>
      h <- match e with
           | inl n => v <- num_to_one_hot n length ;; ret (inl v)
           | inr o => ret (inr o)
           end ;;
      t <- one_hot_entries y' length ;;
      ret (h :: t)
  end.

(** The shape of an entry: a one-hot vector is a flat array. *)
Definition entry_shape {O : Type} {S : Shaped O} (e : list Z + O)
    : option (list nat) :=
  match e with
  | inl v => Some [List.length v]
  | inr o => shape_of o
  end.

(** The comprehension, then [np.array] of the list it built. *)
Definition y_to_one_hot {O : Type} {S : Shaped O} (y : list (Z + O))
    (length : Z) : result (list (list Z + O)) :=
  entries <- one_hot_entries y length ;;
  np_array entry_shape entries.

(** *** [keras_transform_data] *)

(** [np.max] of a list of integers. *)
Definition np_max (l : list Z) : result Z :=
  match l with
  | [] => raise (ValueError "zero-size array to reduction operation maximum which has no identity")
  | a :: l' => ret (fold_left Z.max l' a)
  end.

Definition not_iterable {A} : result A :=
  raise (TypeError "'NoneType' object is not iterable").

(** [for e in x], for an entry of the dictionary that may be [None]. *)
Definition iterate {A} (x : option (list A)) : result (list A) :=
  match x with
  | None => not_iterable
  | Some l => ret l
  end.

(** [np.array([np.array(e) ... for e in x])] on the features. *)
Definition to_array {A} {S : Shaped A} (x : option (list A))
    : result (list A) :=
  l <- iterate x ;;
  np_array shape_of l.

(** An [int] label as an element of [y]; no other object occurs among
    the labels of a partition, which are the integer [stars]. *)
Definition int_label (n : Z) : Z + Empty_set := inl n.

(** The integers numpy holds as [int64], the type it gives by default
    to an array of Python integers that fit it (on Windows only from
    numpy 2.0 on). *)
Definition int64_min : Z := - 2 ^ 63.
Definition int64_max : Z := 2 ^ 63 - 1.

Definition fits_int64 (n : Z) : bool :=
  (int64_min <=? n) && (n <=? int64_max).

(** The value an [int64] sum has: it wraps around. *)
Definition wrap_int64 (n : Z) : Z := (n + 2 ^ 63) mod 2 ^ 64 - 2 ^ 63.

(** [np.max(l) + 1] on a list that numpy holds as an [int64] array. *)
Definition max_plus_one (l : list Z) : result Z :=
  m <- np_max l ;; ret (wrap_int64 (m + 1)).

(** The dictionary once its labels are one-hot vectors. *)
Definition encoded_split (X : Type) : Type := data_split X (list Z + Empty_set).

Section Keras.

(** What the function does when a training label does not fit [int64]:
    numpy then builds an unsigned, floating or object array, by the
    values and by its version, and the width and its later uses differ
    accordingly.  That outcome is left open. *)
Variable wide_outcome :
  forall X : Type, Shaped X -> data_split X Z -> result (encoded_split X).

Definition keras_transform_data {X} {S : Shaped X}
    (data_split : data_split X Z) : result (encoded_split X) :=
  match y_train data_split with
  | None =>
      raise (TypeError "unsupported operand type(s) for +: 'NoneType' and 'int'")
  | Some labels =>
      if forallb fits_int64 labels then
        num_labels <- max_plus_one labels ;;
        x_train' <- to_array (x_train data_split) ;;
        y <- iterate (y_train data_split) ;;
        y_train' <- y_to_one_hot (map int_label y) num_labels ;;
        x_val' <- to_array (x_val data_split) ;;
        y <- iterate (y_val data_split) ;;
        y_val' <- y_to_one_hot (map int_label y) num_labels ;;
        x_test' <- to_array (x_test data_split) ;;
        y <- iterate (y_test data_split) ;;
        y_test' <- y_to_one_hot (map int_label y) num_labels ;;
        ret (DataSplit (Some x_train') (Some x_val') (Some x_test')
                       (Some y_train') (Some y_val') (Some y_test'))
      else wide_outcome S data_split
  end.

End Keras.

Local Close Scope Z_scope.

(** ** Decoding a one-hot label

    [train_keras_model] reads a label back from its encoding with
    [np.argmax(e)]: the index of the first greatest entry. *)

Fixpoint argmax_from (best : Z) (best_i i : nat) (l : list Z) : nat :=
  match l with
  | [] => best_i
  | a :: l' =>
      if (best <? a)%Z then argmax_from a i (S i) l'
      else argmax_from best best_i (S i) l'
  end.

Definition np_argmax (l : list Z) : result Z :=
  match l with
  | [] => raise (ValueError "attempt to get argmax of an empty sequence")
  | a :: l' => ret (Z.of_nat (argmax_from a 0 1 l'))
  end.

(** ** [format_dataset] *)

(** The dictionary of preprocessed data, with its four keys ['url'],
    ['text_transformed'], ['text'] and ['stars']. *)
Record preprocessed : Type := Preprocessed {
  key_url : list str;
  key_text_transformed : list (list str);
  key_text : list str;
  key_stars : list Z
}.

(** The digits of a natural number. *)
Definition decimal (n : nat) : string :=
  NilZero.string_of_uint (Nat.to_uint n).

(** [a[i]] on the first axis of a numpy array, for a non-negative [i]. *)
Definition np_getitem {V} (a : list V) (i : nat) : result V :=
  match nth_error a i with
  | Some v => ret v
  | None =>
      raise (IndexError ("index " ++ decimal i
                         ++ " is out of bounds for axis 0 with size "
                         ++ decimal (length a))%string)
  end.

(** The four lists [x], [x_fulltext], [x_vectors], [y] the loop fills. *)
Definition formatted (V : Type) : Type :=
  (list (list str) * list str * list V * list Z)%type.

Fixpoint format_loop {V} (processed_data : preprocessed) (vectors : list V)
    (indices : list nat) (acc : formatted V) : result (formatted V) :=
  match indices with
  | [] => ret acc
  | i :: indices' =>
      let '(x, x_fulltext, x_vectors, y) := acc in
      t <- getitem (key_text_transformed processed_data) i ;;
      v <- np_getitem vectors i ;;
      f <- getitem (key_text processed_data) i ;;
      n <- getitem (key_stars processed_data) i ;;
      format_loop processed_data vectors indices'
                  (x ++ [t], x_fulltext ++ [f], x_vectors ++ [v], y ++ [n])
  end.

(** [vectors] is [processed_data_vectors['vectors']]. *)
Definition format_dataset {V} (processed_data : preprocessed)
    (vectors : list V) : result (formatted V) :=
  format_loop processed_data vectors
              (seq 0 (length (key_text_transformed processed_data)))
              ([], [], [], []).

(** ** [create_preprocessed_dataset] *)

Definition DATA_FOLDER : str := lit "./data/".

(** The four columns [url, stars, text, tokens] that [zip] makes of the
    unpacked [movie_data]: with no record there is nothing to unpack. *)
Definition unzip_records (movie_data : list review)
    : result (list str * list Z * list str * list (list str)) :=
  match movie_data with
  | [] => raise (ValueError "not enough values to unpack (expected 4, got 0)")
  | _ :: _ =>
      ret (map url movie_data, map stars movie_data,
           map text movie_data, map tokens movie_data)
  end.

(** The files written so far: path and the value [json.dump] was given,
    latest first. *)
Definition files : Type := list (str * preprocessed).

Section Create.

Variable classify_lang : str -> str.

(** [read_csv(path, encoding, newline, delimiter)]: the rows the [csv]
    reader finds in the file, or the error of opening or decoding it. *)
Variable read_csv : str -> str -> str -> str -> result (list (list str)).

(** The outcome and the files afterwards.  The file is opened for
    writing only once the dictionary is built; opening and writing it
    are taken to succeed. *)
Definition create_preprocessed_dataset (path_to_tsv : str) (fs : files)
    : result preprocessed * files :=
  let outcome :=
    csv_array <- read_csv path_to_tsv (lit "utf-8")
                          [newline] ["009"%char] ;;
    movie_data <- preprocess_movie_data classify_lang csv_array true ;;
    columns <- unzip_records movie_data ;;
    let '(url, stars, text, tokens) := columns in
    ret (Preprocessed url tokens text stars) in
  match outcome with
  | inl e => (raise e, fs)
  | inr preprocessed_data =>
      (ret preprocessed_data,
       (DATA_FOLDER ++ lit "preprocessed_notebook.json", preprocessed_data) :: fs)
  end.

End Create.

(** * Vocabulary of the statements *)

Unset Implicit Arguments.

(** ** Runs of the matcher and the shapes the two patterns accept *)

Module MatchSpec.

(** [steps m n a b]: [n] iterations of the body [m] lead from [a] to [b]. *)
Inductive steps (m : mstate -> list mstate) : nat -> mstate -> mstate -> Prop :=
| steps_O a : steps m 0 a a
| steps_S n a b c : In b (m a) -> steps m n b c -> steps m (S n) a c.

(** [n] does not exceed the upper bound of a repetition. *)
Definition within (n : nat) (hi : option nat) : Prop :=
  match hi with
  | None => True
  | Some h => n <= h
  end.

(** No newline occurs. *)
Definition nonl (f : str) : Prop := Forall (fun c => is_newline c = false) f.

(** What [.{0,2}] can consume. *)
Definition filler (f : str) : Prop := length f <= 2 /\ nonl f.

(** What [$] accepts as the rest of the subject. *)
Definition tail (t : str) : Prop := t = [] \/ t = [newline].

(** [.{0,2}] *)
Definition DOTS02 : regex := Repeat 0 (Some 2) true Any.

(** The repeated body of [REPEATER_exact]: [(.{0,2}\1)]. *)
Definition BODY : regex := Group 2 (Seq DOTS02 (Backref 1)).

(** [reps_n p n t t']: [t] is [n] copies of [p], each after a filler,
    followed by [t']. *)
Inductive reps_n (p : str) : nat -> str -> str -> Prop :=
| reps_O t : reps_n p 0 t t
| reps_S n f t t' :
    filler f -> reps_n p n t t' -> reps_n p (S n) (f ++ p ++ t) t'.

(** What follows group 1 in each pattern. *)
Definition REST_exact : regex := Seq (Repeat 1 None false BODY) Eol.
Definition REST_fast : regex :=
  Seq DOTS02 (Seq (Repeat 1 None false (Backref 1)) Eol).

(** Length of the longest prefix without a newline. *)
Fixpoint dotlen (s : str) : nat :=
  match s with
  | [] => 0
  | c :: t => if is_newline c then 0 else S (dotlen t)
  end.

(** [(.+?)] *)
Definition G1 : regex := Group 1 (Repeat 1 None false Any).

(** The state after group 1 has taken the first [i] characters. *)
Definition G1_state (s : str) (i : nat) : mstate :=
  MState i (skipn i s) [(1, firstn i s)].

End MatchSpec.

Import MatchSpec.

(** ** The strings the two patterns match *)

(** [s] is a prefix [p], at most two other characters, and copies of
    [p] up to the end (or up to a final newline). *)
Definition gate_shape (s : str) : Prop :=
  exists p f n tl,
    p <> [] /\ nonl p /\ filler f /\ tail tl
    /\ s = p ++ f ++ concat (repeat p (S n)) ++ tl.

(** [s] is a prefix [p] and copies of [p], each after at most two other
    characters, up to the end (or up to a final newline). *)
Definition exact_shape (p s : str) : Prop :=
  p <> [] /\ nonl p
  /\ exists n t tl, s = p ++ t /\ reps_n p (S n) t tl /\ tail tl.

(** ** Rows, labels and errors *)

(** A field that is the empty string or one space. *)
Definition is_blank (x : str) : Prop := x = lit "" \/ x = lit " ".

(** The row has a blank field at index [i]. *)
Definition blank_at (row : list str) (i : nat) : Prop :=
  exists x, nth_error row i = Some x /\ is_blank x.

(** [c.isspace()], for a code point below 256. *)
Definition is_space (c : ascii) : bool :=
  let n := nat_of_ascii c in
  ((9 <=? n) && (n <=? 13)) || ((28 <=? n) && (n <=? 32))
  || (n =? 133) || (n =? 160).

(** A field of whitespace only (possibly none). *)
Definition whitespace_only (x : str) : bool := forallb is_space x.

(** [str(e)] *)
Definition error_message (e : exn) : string :=
  match e with
  | AttributeError m | IndexError m | ValueError m | TypeError m => m
  end.

(** [needle in hay] *)
Fixpoint contains (needle hay : str) : bool :=
  match strip_prefix needle hay with
  | Some _ => true
  | None =>
      match hay with
      | [] => false
      | _ :: hay' => contains needle hay'
      end
  end.

(** An error names a label when its message holds the label's decimal
    digits. *)
Definition names_label (e : exn) (label : Z) : bool :=
  contains (lit (NilZero.string_of_int (Z.to_int label))) (lit (error_message e)).

(** The record [r] is what one turn of the loop makes of [row]. *)
Definition record_of (classify : str -> str) (enable : bool)
    (row : list str) (r : review) : Prop :=
  exists r0 r1 r2 tl,
    row = r0 :: r1 :: r2 :: tl
    /\ ~ is_blank r0 /\ ~ is_blank r1 /\ ~ is_blank r2
    /\ (enable = true -> classify (join (lit " ") (r2 :: tl)) = lit "de")
    /\ url r = r0
    /\ py_int r1 = ret (stars r)
    /\ clean_text (join (lit " ") (r2 :: tl)) = ret (text r)
    /\ tokens r = [].

(** The text of the row is classified as German. *)
Definition german (classify : str -> str) (row : list str) : bool :=
  str_eqb (classify (join (lit " ") (skipn 2 row))) (lit "de").

(** What one row adds to the result of a run that returns. *)
Definition records_of_row (classify : str -> str) (enable : bool)
    (row : list str) : list review :=
  match process_row classify enable row with
  | inr (Some r) => [r]
  | _ => []
  end.

(** The error of [int] on a string that is no integer. *)
Definition invalid_literal : exn :=
  ValueError "invalid literal for int() with base 10".

Local Open Scope Z_scope.

(** What Python raises for a list assignment out of range. *)
Definition index_error : exn :=
  IndexError "list assignment index out of range".

(** The vector of [width] entries that is 1 at [position], 0 elsewhere. *)
Definition unit_vector (position width : Z) : list Z :=
  repeat 0 (Z.to_nat position) ++ 1 :: repeat 0 (Z.to_nat (width - position - 1)).

(** The greatest element of a list that has one. *)
Definition list_max (l : list Z) : Z :=
  match l with
  | [] => 0
  | a :: l' => fold_left Z.max l' a
  end.

(** The elements of [l] all have one shape, so that [np.array] stacks
    them. *)
Definition homogeneous {A : Type} (shape : A -> option (list nat))
    (l : list A) : Prop :=
  exists s, forall a, In a l -> shape a = Some s.

(** The position a list assignment gives to an index that is in range:
    a negative one counts from the end. *)
Definition wrap_index (num len : Z) : Z :=
  if num <? 0 then len + num else num.

(** What [y_to_one_hot] makes of one element when it returns. *)
Definition encode_element {O : Type} (len : Z) (e : Z + O) : list Z + O :=
  match e with
  | inl n => inl (unit_vector (wrap_index n len) len)
  | inr o => inr o
  end.

(** A label as [y_to_one_hot] leaves it in its result. *)
Definition encoded (width label : Z) : list Z + Empty_set :=
  inl (unit_vector label width).

Local Close Scope Z_scope.

(** * Properties *)

(** ** The matcher: repetition as a number of steps of its body *)

Module RegexFacts.

Lemma steps_O_inv m a b : steps m 0 a b -> a = b.
Proof. inversion 1; reflexivity. Qed.

Lemma steps_S_inv m n a c :
  steps m (S n) a c -> exists b, In b (m a) /\ steps m n b c.
Proof. inversion 1; subst; eauto. Qed.

Lemma within_le n n' hi : within n hi -> n' <= n -> within n' hi.
Proof. destruct hi as [h|]; simpl; [lia | auto]. Qed.

Lemma within_pred n hi :
  within (S n) hi <-> within 1 hi /\ within n (option_map Nat.pred hi).
Proof. destruct hi as [h|]; simpl; [lia | tauto]. Qed.

(** One unfolding: stop here, where no iteration is owed, or iterate
    once more, where one is allowed. *)
Lemma repeat_from_S_in m greedy lo hi fuel st st' :
  within lo hi ->
  In st' (repeat_from m greedy lo hi (S fuel) st) <->
  (lo = 0 /\ st' = st)
  \/ (within 1 hi
      /\ In st' (flat_map (repeat_from m greedy (Nat.pred lo)
                             (option_map Nat.pred hi) fuel) (m st))).
Proof.
  intros Hb. cbn [repeat_from].
  destruct lo as [|lo], hi as [[|h]|], greedy; simpl in Hb |- *;
    rewrite ?in_app_iff; cbn [In];
    intuition (try lia; try discriminate; auto).
Qed.

(** What a repetition returns, whatever its order: the states reached
    by a number of iterations within the bounds (and the fuel). *)
Lemma repeat_from_spec m greedy fuel :
  forall lo hi st st', within lo hi ->
    In st' (repeat_from m greedy lo hi fuel st) <->
    exists n, lo <= n /\ within n hi /\ n < fuel /\ steps m n st st'.
Proof.
  induction fuel as [|fuel IH]; intros lo hi st st' Hb.
  - simpl. split; [tauto | intros (n & _ & _ & H & _); lia].
  - rewrite repeat_from_S_in, in_flat_map by exact Hb. split.
    + intros [(-> & ->) | (Hone & b & Hb1 & Hb2)].
      * exists 0. repeat split; [lia | exact Hb | lia | constructor].
      * apply IH in Hb2.
        -- destruct Hb2 as (n & Hlo & Hhi & Hf & Hs).
           exists (S n). repeat split; [lia | | lia | ].
           ++ now apply within_pred.
           ++ now apply steps_S with (b := b).
        -- assert (Hp : within (S (Nat.pred lo)) hi)
             by (destruct lo; [exact Hone | exact Hb]).
           apply within_pred in Hp. apply Hp.
    + intros ([|n] & Hlo & Hhi & Hf & Hs).
      * left. apply steps_O_inv in Hs. split; [lia | congruence].
      * right. apply steps_S_inv in Hs. destruct Hs as (b & Hb1 & Hb2).
        apply within_pred in Hhi. destruct Hhi as (Hone & Hhi).
        split; [exact Hone|]. exists b. split; [exact Hb1|].
        apply IH.
        -- apply within_le with (n := n); [exact Hhi | lia].
        -- exists n. repeat split; [lia | exact Hhi | lia | exact Hb2].
Qed.

(** *** What each piece of the two patterns matches *)

Lemma exec_Any_in a b :
  In b (exec Any a) <->
  exists c t, rest a = c :: t /\ is_newline c = false
              /\ b = MState (S (pos a)) t (groups a).
Proof.
  destruct a as [p r g]; simpl. destruct r as [|c t].
  - split; [intros [] | intros (c & t & H & _); discriminate].
  - destruct (is_newline c) eqn:E.
    + split; [intros [] | intros (c' & t' & H & H' & _)].
      injection H as -> ->. congruence.
    + split.
      * intros [<- | []]. exists c, t. auto.
      * intros (c' & t' & H & H' & ->). injection H as -> ->. now left.
Qed.

Lemma steps_Any n : forall a b,
  steps (exec Any) n a b <->
  exists f t, length f = n /\ nonl f /\ rest a = f ++ t
              /\ b = MState (pos a + n) t (groups a).
Proof.
  induction n as [|n IH]; intros a b.
  - split.
    + intros H. apply steps_O_inv in H. subst b.
      exists [], (rest a). repeat split; [constructor|].
      destruct a; simpl. f_equal. lia.
    + intros (f & t & Hl & _ & Hr & ->).
      destruct f; [|discriminate]. simpl in Hr. subst t.
      replace (MState (pos a + 0) (rest a) (groups a)) with a
        by (destruct a; simpl; f_equal; lia).
      constructor.
  - split.
    + intros H. apply steps_S_inv in H. destruct H as (x & Hx & Hs).
      apply exec_Any_in in Hx. destruct Hx as (c & t & Hr & Hc & ->).
      apply IH in Hs. destruct Hs as (f & t' & Hl & Hn & Hr' & ->).
      simpl in *. subst t.
      exists (c :: f), t'. repeat split.
      * simpl. lia.
      * constructor; assumption.
      * exact Hr.
      * f_equal. lia.
    + intros (f & t & Hl & Hn & Hr & ->).
      destruct f as [|c f]; [discriminate|].
      inversion Hn as [|? ? Hc Hn']; subst.
      apply steps_S with (b := MState (S (pos a)) (f ++ t) (groups a)).
      * apply exec_Any_in. exists c, (f ++ t). auto.
      * apply IH. exists f, t. simpl. repeat split; auto.
        f_equal. simpl in Hl. lia.
Qed.

Lemma exec_DOTS02_in a b :
  In b (exec DOTS02 a) <->
  exists f t, filler f /\ rest a = f ++ t
              /\ b = MState (pos a + length f) t (groups a).
Proof.
  unfold DOTS02. cbn [exec].
  rewrite repeat_from_spec by (simpl; lia). split.
  - intros (n & _ & Hhi & _ & Hs). simpl in Hhi.
    apply steps_Any in Hs. destruct Hs as (f & t & Hl & Hn & Hr & ->).
    exists f, t. subst n. repeat split; auto.
  - intros (f & t & (Hl & Hn) & Hr & ->).
    exists (length f). repeat split.
    + lia.
    + exact Hl.
    + rewrite Hr, length_app. lia.
    + apply steps_Any. exists f, t. auto.
Qed.

Lemma strip_prefix_spec p : forall s t,
  strip_prefix p s = Some t <-> s = p ++ t.
Proof.
  induction p as [|a p IH]; intros s t; simpl.
  - split; [intros [= ->] | intros ->]; reflexivity.
  - destruct s as [|b s].
    + split; discriminate.
    + destruct (Ascii.eqb a b) eqn:E.
      * apply Ascii.eqb_eq in E. subst b. rewrite IH.
        split; [intros -> | intros [= ->]]; reflexivity.
      * apply Ascii.eqb_neq in E.
        split; [discriminate | intros [= -> _]; congruence].
Qed.

Lemma exec_Backref_in k a b :
  In b (exec (Backref k) a) <->
  exists g t, lookup k (groups a) = Some g /\ rest a = g ++ t
              /\ b = MState (pos a + length g) t (groups a).
Proof.
  cbn [exec]. destruct (lookup k (groups a)) as [g|].
  - destruct (strip_prefix g (rest a)) as [t|] eqn:E.
    + apply strip_prefix_spec in E. split.
      * intros [<- | []]. exists g, t. auto.
      * intros (g' & t' & [= <-] & Hr & ->). rewrite E in Hr.
        apply app_inv_head in Hr. subst t'. now left.
    + split; [intros [] | intros (g' & t' & [= <-] & Hr & _)].
      apply strip_prefix_spec in Hr. congruence.
  - split; [intros [] | intros (g' & t' & H & _); discriminate].
Qed.

Lemma exec_Eol_in a b : In b (exec Eol a) <-> b = a /\ tail (rest a).
Proof.
  unfold tail. cbn [exec]. destruct (rest a) as [|c [|d t]].
  - split; [intros [<- | []]; auto | intros (-> & _); now left].
  - unfold is_newline. destruct (Ascii.eqb c newline) eqn:E.
    + apply Ascii.eqb_eq in E. subst c.
      split; [intros [<- | []]; auto | intros (-> & _); now left].
    + apply Ascii.eqb_neq in E.
      split; [intros [] | intros (_ & [H | [= H]]); [discriminate | congruence]].
  - split; [intros [] | intros (_ & [H | H]); discriminate].
Qed.

Lemma exec_BODY_in a b :
  In b (exec BODY a) <->
  exists f g t, filler f /\ lookup 1 (groups a) = Some g
    /\ rest a = f ++ g ++ t
    /\ b = MState (pos a + length f + length g) t
                  ((2, firstn (length f + length g) (rest a)) :: groups a).
Proof.
  unfold BODY. cbn [exec]. rewrite in_map_iff. split.
  - intros (x & <- & Hx). apply in_flat_map in Hx.
    destruct Hx as (y & Hy & Hx).
    apply exec_DOTS02_in in Hy. destruct Hy as (f & t & Hf & Hr & ->).
    apply exec_Backref_in in Hx. destruct Hx as (g & t' & Hg & Hr' & ->).
    simpl in *. subst t. exists f, g, t'.
    split; [exact Hf|]. split; [exact Hg|]. split; [exact Hr|].
    replace (pos a + length f + length g - pos a)
      with (length f + length g) by lia.
    reflexivity.
  - intros (f & g & t & Hf & Hg & Hr & ->).
    exists (MState (pos a + length f + length g) t (groups a)). split.
    + simpl.
      replace (pos a + length f + length g - pos a)
        with (length f + length g) by lia.
      reflexivity.
    + apply in_flat_map.
      exists (MState (pos a + length f) (g ++ t) (groups a)). split.
      * apply exec_DOTS02_in. exists f, (g ++ t). auto.
      * apply exec_Backref_in. exists g, t. auto.
Qed.

Lemma reps_n_app p n m a b c :
  reps_n p n a b -> reps_n p m b c -> reps_n p (n + m) a c.
Proof.
  induction 1; intros Hm; simpl; [assumption|].
  constructor; auto.
Qed.

Lemma reps_n_length p n t t' :
  reps_n p n t t' -> n * length p + length t' <= length t.
Proof.
  induction 1; simpl; [lia|]. rewrite !length_app. lia.
Qed.

Lemma filler_nil : filler [].
Proof. split; [simpl; lia | constructor]. Qed.

(** Copies of [p] with nothing in between. *)
Lemma reps_n_pows p n t : reps_n p n (concat (repeat p n) ++ t) t.
Proof.
  induction n as [|n IH]; simpl; [constructor|].
  rewrite <- app_assoc.
  apply (reps_S p n [] (concat (repeat p n) ++ t) t filler_nil IH).
Qed.

Lemma steps_BODY p n : forall a b,
  lookup 1 (groups a) = Some p ->
  steps (exec BODY) n a b ->
  reps_n p n (rest a) (rest b) /\ lookup 1 (groups b) = Some p.
Proof.
  induction n as [|n IH]; intros a b Hp Hs.
  - apply steps_O_inv in Hs. subst b. split; [constructor | assumption].
  - apply steps_S_inv in Hs. destruct Hs as (x & Hx & Hs).
    apply exec_BODY_in in Hx.
    destruct Hx as (f & g & t & Hf & Hg & Hr & ->).
    rewrite Hp in Hg. injection Hg as <-.
    apply IH in Hs; [|simpl; exact Hp].
    destruct Hs as (Hs & Hb). simpl in Hs.
    split; [|exact Hb]. rewrite Hr. now constructor.
Qed.

Lemma reps_n_steps p n t t' :
  reps_n p n t t' ->
  forall a, rest a = t -> lookup 1 (groups a) = Some p ->
  exists b, steps (exec BODY) n a b /\ rest b = t'.
Proof.
  induction 1 as [t | n f t t' Hf Hr IH]; intros a Ha Hp.
  - exists a. split; [constructor | assumption].
  - destruct (IH (MState (pos a + length f + length p) t
                   ((2, firstn (length f + length p) (rest a)) :: groups a)))
      as (b & Hb & Hb'); [reflexivity | simpl; exact Hp |].
    exists b. split; [|exact Hb'].
    eapply steps_S; [|exact Hb].
    apply exec_BODY_in. exists f, p, t. auto.
Qed.

Lemma steps_Backref p n : forall a b,
  lookup 1 (groups a) = Some p ->
  steps (exec (Backref 1)) n a b ->
  rest a = concat (repeat p n) ++ rest b.
Proof.
  induction n as [|n IH]; intros a b Hp Hs.
  - apply steps_O_inv in Hs. subst b. reflexivity.
  - apply steps_S_inv in Hs. destruct Hs as (x & Hx & Hs).
    apply exec_Backref_in in Hx. destruct Hx as (g & t & Hg & Hr & ->).
    rewrite Hp in Hg. injection Hg as <-.
    apply IH in Hs; [|simpl; exact Hp]. simpl in Hs.
    rewrite Hr, Hs. simpl. now rewrite app_assoc.
Qed.

Lemma REST_exact_sound p a b :
  lookup 1 (groups a) = Some p ->
  In b (exec REST_exact a) ->
  (exists n tl, reps_n p (S n) (rest a) tl /\ tail tl)
  /\ lookup 1 (groups b) = Some p.
Proof.
  intros Hp Hb. unfold REST_exact in Hb. cbn [exec] in Hb.
  apply in_flat_map in Hb. destruct Hb as (x & Hx & Hb).
  apply repeat_from_spec in Hx; [|exact I].
  destruct Hx as (n & Hn & _ & _ & Hs).
  apply exec_Eol_in in Hb. destruct Hb as (-> & Ht).
  destruct (steps_BODY p n a x Hp Hs) as (Hr & Hg).
  split; [|exact Hg].
  destruct n as [|n]; [lia|]. eauto.
Qed.

Lemma REST_exact_complete p a n tl :
  lookup 1 (groups a) = Some p -> p <> [] ->
  reps_n p (S n) (rest a) tl -> tail tl ->
  exec REST_exact a <> [].
Proof.
  intros Hp Hne Hr Ht.
  destruct (reps_n_steps p (S n) (rest a) tl Hr a eq_refl Hp) as (b & Hb & Hb').
  assert (Hin : In b (exec REST_exact a)).
  { unfold REST_exact. cbn [exec]. apply in_flat_map. exists b. split.
    - apply repeat_from_spec; [exact I|].
      exists (S n). repeat split; [lia | | exact Hb].
      apply reps_n_length in Hr.
      assert (0 < length p) by (destruct p; [congruence | simpl; lia]).
      apply Nat.lt_succ_r. nia.
    - apply exec_Eol_in. rewrite Hb'. auto. }
  intros E. rewrite E in Hin. exact Hin.
Qed.

Lemma REST_fast_sound p a b :
  lookup 1 (groups a) = Some p ->
  In b (exec REST_fast a) ->
  exists f n tl, filler f /\ tail tl
    /\ rest a = f ++ concat (repeat p (S n)) ++ tl.
Proof.
  intros Hp Hb. unfold REST_fast in Hb. cbn [exec] in Hb.
  apply in_flat_map in Hb. destruct Hb as (x & Hx & Hb).
  apply exec_DOTS02_in in Hx. destruct Hx as (f & t & Hf & Hr & ->).
  apply in_flat_map in Hb. destruct Hb as (y & Hy & Hb).
  apply repeat_from_spec in Hy; [|exact I].
  destruct Hy as (n & Hn & _ & _ & Hs).
  apply exec_Eol_in in Hb. destruct Hb as (-> & Ht).
  apply (steps_Backref p) in Hs; [|exact Hp]. simpl in Hs.
  destruct n as [|n]; [lia|].
  exists f, n, (rest y). repeat split; try apply Hf; auto.
  rewrite Hr, Hs. reflexivity.
Qed.

(** *** Group 1: the prefixes tried, shortest first *)

Lemma dotlen_le s : dotlen s <= length s.
Proof.
  induction s as [|c t IH]; simpl; [lia|].
  destruct (is_newline c); lia.
Qed.

Lemma nonl_firstn s : forall i, i <= dotlen s -> nonl (firstn i s).
Proof.
  induction s as [|c t IH]; intros i Hi.
  - rewrite firstn_nil. constructor.
  - destruct i as [|i]; [constructor|].
    simpl in *. destruct (is_newline c) eqn:E; [lia|].
    constructor; [exact E | apply IH; lia].
Qed.

Lemma lazy_star_Any fuel : forall t p g,
  length t < fuel ->
  repeat_from (exec Any) false 0 None fuel (MState p t g)
  = map (fun i => MState (p + i) (skipn i t) g) (seq 0 (S (dotlen t))).
Proof.
  induction fuel as [|fuel IH]; intros t p g Hf; [lia|].
  cbn [repeat_from Nat.pred option_map exec rest pos groups].
  destruct t as [|c t].
  - simpl. now rewrite Nat.add_0_r.
  - cbn [dotlen]. destruct (is_newline c).
    + simpl. now rewrite Nat.add_0_r.
    + cbn [flat_map]. rewrite app_nil_r, IH by (simpl in Hf; lia).
      remember (S (dotlen t)) as n.
      change (seq 0 (S n)) with (0 :: seq 1 n).
      rewrite <- seq_shift, map_cons, map_map. f_equal.
      * now rewrite Nat.add_0_r.
      * apply map_ext. intros i. cbn [skipn]. f_equal. lia.
Qed.

Lemma exec_G1 s :
  exec G1 (MState 0 s []) = map (G1_state s) (seq 1 (dotlen s)).
Proof.
  unfold G1.
  cbn [exec repeat_from Nat.pred option_map rest pos groups].
  destruct s as [|c t]; [reflexivity|].
  cbn [dotlen]. destruct (is_newline c); [reflexivity|].
  cbn [flat_map]. rewrite app_nil_r, lazy_star_Any by (simpl; lia).
  rewrite <- seq_shift, !map_map. apply map_ext. intros i.
  unfold G1_state. cbn [pos rest groups Nat.add skipn].
  now rewrite Nat.sub_0_r.
Qed.

(** *** The first success *)

Lemma hd_flat_map_seq {A} (F : nat -> list A) x : forall m k,
  hd_error (flat_map F (seq k m)) = Some x ->
  exists i, k <= i < k + m /\ hd_error (F i) = Some x
            /\ forall j, k <= j < i -> F j = [].
Proof.
  induction m as [|m IH]; intros k H; [discriminate|].
  cbn [seq flat_map] in H. destruct (F k) as [|y l] eqn:E.
  - apply IH in H. destruct H as (i & Hi & Hx & Hj).
    exists i. repeat split; try lia; auto.
    intros j Hj'. destruct (Nat.eq_dec j k) as [-> | Hne]; [exact E|].
    apply Hj. lia.
  - exists k. rewrite E. repeat split; try lia; auto.
Qed.

Lemma flat_map_seq_nonempty {A} (F : nat -> list A) m k i :
  k <= i < k + m -> F i <> [] -> flat_map F (seq k m) <> [].
Proof.
  intros Hi Hne E. apply Hne.
  destruct (F i) as [|y l] eqn:Ei; [reflexivity|].
  assert (Hin : In y (flat_map F (seq k m))).
  { apply in_flat_map. exists i. split; [apply in_seq; lia|].
    rewrite Ei. now left. }
  rewrite E in Hin. destruct Hin.
Qed.

Lemma search_from_Bol_S r s : forall i, search_from (Seq Bol r) (S i) s = None.
Proof.
  induction s as [|c t IH]; intros i; simpl; [reflexivity | apply IH].
Qed.

(** A pattern that starts with [^] matches at the start or nowhere. *)
Lemma search_Bol r s :
  search (Seq Bol r) s = hd_error (exec r (MState 0 s [])).
Proof.
  unfold search. destruct s as [|c t]; cbn [search_from exec pos Nat.eqb flat_map];
    rewrite app_nil_r.
  - destruct (exec r (MState 0 [] [])); reflexivity.
  - destruct (exec r (MState 0 (c :: t) [])); [apply search_from_Bol_S | reflexivity].
Qed.

Lemma hd_error_in {A} (l : list A) x : hd_error l = Some x -> In x l.
Proof. destruct l; [discriminate | intros [= ->]; now left]. Qed.

Lemma search_G1 R s :
  search (Seq Bol (Seq G1 R)) s
  = hd_error (flat_map (fun i => exec R (G1_state s i)) (seq 1 (dotlen s))).
Proof.
  rewrite search_Bol. cbn [exec]. fold G1. rewrite exec_G1.
  f_equal. generalize (seq 1 (dotlen s)). intros l.
  induction l as [|i l IH]; simpl; [reflexivity | now rewrite IH].
Qed.

Lemma G1_state_group s i :
  lookup 1 (groups (G1_state s i)) = Some (firstn i s).
Proof. reflexivity. Qed.

Lemma firstn_nonempty (s : str) i : 1 <= i <= length s -> firstn i s <> [].
Proof.
  intros Hi E. apply (f_equal (@List.length ascii)) in E.
  rewrite length_firstn in E. simpl in E. lia.
Qed.

(** *** The two patterns *)

Lemma REPEATER_fast_shape : REPEATER_fast = Seq Bol (Seq G1 REST_fast).
Proof. reflexivity. Qed.

Lemma REPEATER_exact_shape : REPEATER_exact = Seq Bol (Seq G1 REST_exact).
Proof. reflexivity. Qed.

Lemma search_fast_inv s m :
  search REPEATER_fast s = Some m ->
  exists i, 1 <= i <= dotlen s /\ In m (exec REST_fast (G1_state s i)).
Proof.
  rewrite REPEATER_fast_shape, search_G1. intros H.
  apply hd_flat_map_seq in H. destruct H as (i & Hi & Hm & _).
  exists i. split; [lia | now apply hd_error_in].
Qed.

Lemma search_exact_inv s m :
  search REPEATER_exact s = Some m ->
  exists i, 1 <= i <= dotlen s
    /\ In m (exec REST_exact (G1_state s i))
    /\ forall j, 1 <= j < i -> exec REST_exact (G1_state s j) = [].
Proof.
  rewrite REPEATER_exact_shape, search_G1. intros H.
  apply hd_flat_map_seq in H. destruct H as (i & Hi & Hm & Hj).
  exists i. repeat split; try lia; [now apply hd_error_in | exact Hj].
Qed.

Lemma search_exact_some s i :
  1 <= i <= dotlen s -> exec REST_exact (G1_state s i) <> [] ->
  search REPEATER_exact s <> None.
Proof.
  intros Hi Hne. rewrite REPEATER_exact_shape, search_G1.
  pose proof (flat_map_seq_nonempty
                (fun i => exec REST_exact (G1_state s i)) (dotlen s) 1 i) as H.
  destruct (flat_map (fun i0 => exec REST_exact (G1_state s i0))
              (seq 1 (dotlen s))).
  - exfalso. apply H; [lia | exact Hne | reflexivity].
  - discriminate.
Qed.

(** The gate is the narrower pattern: where it matches, so does the
    extraction pattern. *)
Lemma fast_implies_exact s m :
  search REPEATER_fast s = Some m -> search REPEATER_exact s <> None.
Proof.
  intros H. apply search_fast_inv in H. destruct H as (i & Hi & Hm).
  pose proof (dotlen_le s) as Hd.
  apply (REST_fast_sound (firstn i s)) in Hm; [|apply G1_state_group].
  destruct Hm as (f & n & tl & Hf & Ht & Hr).
  apply (search_exact_some s i Hi).
  apply (REST_exact_complete (firstn i s) _ n tl).
  - apply G1_state_group.
  - apply firstn_nonempty. lia.
  - rewrite Hr. cbn [repeat concat]. rewrite <- app_assoc.
    apply reps_S; [exact Hf | apply reps_n_pows].
  - exact Ht.
Qed.

(** A period of the period: where [p] is itself [q], a filler and
    copies of [q], copies of [p] are copies of [q]. *)
Lemma reps_refine q f k p :
  p = q ++ f ++ concat (repeat q (S k)) -> filler f ->
  forall n t t', reps_n p n t t' -> exists m, reps_n q m t t'.
Proof.
  intros Hp Hf n t t' H.
  induction H as [t | n g t t' Hg H (m & IH)].
  - exists 0. constructor.
  - exists (S (S (k + m))). subst p.
    cbn [repeat concat]. rewrite <- !app_assoc.
    apply reps_S; [exact Hg|].
    apply reps_S; [exact Hf|].
    apply reps_n_app with (b := t); [apply reps_n_pows | exact IH].
Qed.

Lemma tail_nonl tl : tail tl -> nonl tl -> tl = [].
Proof.
  intros [-> | ->] H; [reflexivity|].
  inversion H as [|? ? Hc _]. discriminate.
Qed.

(** What the extraction pattern captures has no repetition the gate
    would see: the captured prefix is the shortest one possible. *)
Lemma exact_result_no_fast s m p :
  search REPEATER_exact s = Some m -> group m 1 = Some p ->
  search REPEATER_fast p = None.
Proof.
  intros Hs Hg.
  destruct (search REPEATER_fast p) as [m'|] eqn:E; [exfalso | reflexivity].
  apply search_exact_inv in Hs. destruct Hs as (i & Hi & Hm & Hmin).
  pose proof (dotlen_le s) as Hds.
  destruct (REST_exact_sound (firstn i s) _ _ (G1_state_group s i) Hm)
    as ((n & tl' & Hreps & Htl') & Hg').
  unfold group in Hg. rewrite Hg in Hg'. injection Hg' as ->.
  set (p := firstn i s) in *.
  assert (Hnl : nonl p) by (apply nonl_firstn; lia).
  assert (Hlen : length p = i) by (unfold p; rewrite length_firstn; lia).
  apply search_fast_inv in E. destruct E as (j & Hj & Hm').
  pose proof (dotlen_le p) as Hdp.
  apply (REST_fast_sound (firstn j p)) in Hm'; [|apply G1_state_group].
  destruct Hm' as (f & k & tl & Hf & Ht & Hr).
  cbn [G1_state rest] in Hr, Hreps.
  assert (Hsplit : p = firstn j p ++ skipn j p)
    by (symmetry; apply firstn_skipn).
  assert (tl = []) as ->.
  { apply tail_nonl; [exact Ht|].
    unfold nonl in *. rewrite Hsplit, Hr in Hnl.
    rewrite !Forall_app in Hnl. tauto. }
  rewrite app_nil_r in Hr.
  assert (Hq : firstn j p = firstn j s).
  { unfold p. rewrite firstn_firstn. f_equal. lia. }
  assert (Hqlen : length (firstn j p) = j) by (rewrite length_firstn; lia).
  assert (Hji : j < i).
  { apply (f_equal (@List.length ascii)) in Hsplit.
    rewrite Hr in Hsplit. cbn [repeat concat] in Hsplit.
    rewrite !length_app, Hlen, Hqlen in Hsplit. lia. }
  assert (Hrest : skipn j s = skipn j p ++ skipn i s).
  { rewrite <- (firstn_skipn i s) at 1. fold p.
    rewrite skipn_app.
    replace (j - length p) with 0 by lia. reflexivity. }
  destruct (reps_refine (firstn j p) f k p) with (n := S n)
    (t := skipn i s) (t' := tl') as (m2 & Hm2).
  { rewrite Hsplit at 1. now rewrite Hr. }
  { exact Hf. }
  { exact Hreps. }
  assert (Hne : exec REST_exact (G1_state s j) <> []).
  { apply (REST_exact_complete (firstn j s) _ (k + m2) tl').
    - apply G1_state_group.
    - apply firstn_nonempty. lia.
    - cbn [G1_state rest]. rewrite Hrest, Hr, <- Hq.
      cbn [repeat concat]. rewrite <- !app_assoc.
      apply reps_S; [exact Hf|].
      apply reps_n_app with (b := skipn i s); [apply reps_n_pows | exact Hm2].
    - exact Htl'. }
  apply Hne, Hmin. lia.
Qed.

End RegexFacts.

Import RegexFacts.

(** ** [remove_repetitions] *)

Lemma search_exact_group s m :
  search REPEATER_exact s = Some m ->
  exists i, 1 <= i <= dotlen s /\ group m 1 = Some (firstn i s).
Proof.
  intros H. apply search_exact_inv in H. destruct H as (i & Hi & Hm & _).
  exists i. split; [exact Hi|].
  now destruct (REST_exact_sound (firstn i s) _ _ (G1_state_group s i) Hm).
Qed.

Lemma remove_repetitions_returns s :
  exists r, remove_repetitions s = ret (Some r).
Proof.
  unfold remove_repetitions.
  destruct (search REPEATER_fast s) as [m|] eqn:Ef; [|eauto].
  apply fast_implies_exact in Ef.
  destruct (search REPEATER_exact s) as [me|] eqn:Ee; [|congruence].
  apply search_exact_group in Ee. destruct Ee as (i & _ & ->). eauto.
Qed.

(** C9: wherever the gating pattern matches, the extraction pattern
    matches too, so [match_exact] is never [None] where [.group(1)] is
    taken; and [remove_repetitions] returns a string on every input. *)
Theorem remove_repetitions_total (s : str) :
  (search REPEATER_fast s <> None -> search REPEATER_exact s <> None)
  /\ exists r, remove_repetitions s = ret (Some r).
Proof.
  split; [|apply remove_repetitions_returns].
  destruct (search REPEATER_fast s) as [m|] eqn:E; [|congruence].
  intros _. exact (fast_implies_exact s m E).
Qed.

Lemma remove_repetitions_total_witness :
  search REPEATER_fast (lit "hahaha") <> None
  /\ search REPEATER_exact (lit "hahaha") <> None.
Proof.
  assert (H : search REPEATER_fast (lit "hahaha") <> None)
    by (vm_compute; discriminate).
  split; [exact H|].
  exact (proj1 (remove_repetitions_total (lit "hahaha")) H).
Defined.

(** C2: collapsing a second time changes nothing:
    [remove_repetitions(remove_repetitions(s)) == remove_repetitions(s)]. *)
Theorem remove_repetitions_idempotent (s : str) :
  exists r, remove_repetitions s = ret (Some r)
            /\ remove_repetitions r = remove_repetitions s.
Proof.
  destruct (remove_repetitions_returns s) as (r & Hr).
  exists r. split; [exact Hr|]. rewrite Hr.
  unfold remove_repetitions in Hr.
  destruct (search REPEATER_fast s) as [m|] eqn:Ef.
  - destruct (search REPEATER_exact s) as [me|] eqn:Ee; [|discriminate].
    injection Hr as Hr.
    unfold remove_repetitions.
    now rewrite (exact_result_no_fast s me r Ee Hr).
  - injection Hr as <-. unfold remove_repetitions. now rewrite Ef.
Qed.

(** C6: ["hahaha"] collapses to ["ha"], ["wunderbar"] is unchanged, and
    so is every string on which the gating pattern finds nothing. *)
Theorem remove_repetitions_examples :
  remove_repetitions (lit "hahaha") = ret (Some (lit "ha"))
  /\ remove_repetitions (lit "wunderbar") = ret (Some (lit "wunderbar"))
  /\ forall s, search REPEATER_fast s = None ->
               remove_repetitions s = ret (Some s).
Proof.
  split; [vm_compute; reflexivity|].
  split; [vm_compute; reflexivity|].
  intros s H. unfold remove_repetitions. now rewrite H.
Qed.

Lemma remove_repetitions_examples_witness :
  search REPEATER_fast (lit "wunderbar") = None
  /\ remove_repetitions (lit "wunderbar") = ret (Some (lit "wunderbar")).
Proof.
  assert (H : search REPEATER_fast (lit "wunderbar") = None)
    by (vm_compute; reflexivity).
  split; [exact H|].
  exact (proj2 (proj2 remove_repetitions_examples) (lit "wunderbar") H).
Defined.

(** Both patterns see ["text"] as [t], a filler [ex], and [t] again. *)
Example remove_repetitions_text :
  remove_repetitions (lit "text") = ret (Some (lit "t")).
Proof. vm_compute. reflexivity. Qed.

(** [$] also holds before a final newline, which [.] never consumes. *)
Example remove_repetitions_final_newline :
  remove_repetitions ("a" :: "a" :: newline :: nil)%char = ret (Some (lit "a"))
  /\ remove_repetitions ("a" :: newline :: "a" :: nil)%char
     = ret (Some ("a" :: newline :: "a" :: nil)%char).
Proof. split; vm_compute; reflexivity. Qed.

(** ** [preprocess_movie_data] *)

Arguments remove_repetitions : simpl never.
Arguments clean_text : simpl never.
Arguments py_int : simpl never.

Lemma str_eqb_eq a b : str_eqb a b = true <-> a = b.
Proof.
  unfold str_eqb. destruct (list_eq_dec ascii_dec a b); split; congruence.
Qed.

Lemma in_blank_spec x : in_blank x = true <-> is_blank x.
Proof.
  unfold in_blank, is_blank. cbn [existsb].
  rewrite !orb_true_iff, !str_eqb_eq. split.
  - intros [H | [H | H]]; [now right | now left | discriminate].
  - intros [H | H]; auto.
Qed.

Lemma ret_inj {A} (a b : A) : ret a = ret b <-> a = b.
Proof. split; [intros [= ->] | intros ->]; reflexivity. Qed.

Lemma structural_reject_cons3 r0 r1 r2 tl :
  structural_reject (r0 :: r1 :: r2 :: tl)
  = ret (in_blank r0 || in_blank r1 || in_blank r2).
Proof. reflexivity. Qed.

Lemma structural_reject_short row :
  length row < 3 -> structural_reject row = ret true.
Proof.
  intros H. unfold structural_reject.
  apply Nat.ltb_lt in H. now rewrite H.
Qed.

Lemma structural_reject_spec row :
  structural_reject row = ret true <->
  (length row < 3 \/ blank_at row 0 \/ blank_at row 1 \/ blank_at row 2).
Proof.
  destruct row as [|r0 [|r1 [|r2 tl]]];
    try (split; [intros _; left; simpl; lia
                | intros _; apply structural_reject_short; simpl; lia]).
  rewrite structural_reject_cons3, ret_inj, !orb_true_iff, !in_blank_spec.
  unfold blank_at. simpl. split.
  - intros [[H | H] | H]; right; eauto 6.
  - intros [H | [(x & [= <-] & H) | [(x & [= <-] & H) | (x & [= <-] & H)]]];
      [lia | auto ..].
Qed.

Lemma process_row_cons3 classify enable r0 r1 r2 tl :
  process_row classify enable (r0 :: r1 :: r2 :: tl) =
  if in_blank r0 || in_blank r1 || in_blank r2 then ret None
  else
    let joined := join (lit " ") (r2 :: tl) in
    if enable && negb (str_eqb (classify joined) (lit "de")) then ret None
    else
      movie_review <- clean_text joined ;;
      n <- py_int r1 ;;
      ret (Some (Review r0 n movie_review [])).
Proof.
  unfold process_row. rewrite structural_reject_cons3. cbn [bind ret].
  destruct (in_blank r0 || in_blank r1 || in_blank r2); [reflexivity|].
  destruct tl as [|r3 tl]; reflexivity.
Qed.

Lemma process_row_rejected classify enable row :
  structural_reject row = ret true -> process_row classify enable row = ret None.
Proof. intros H. unfold process_row. now rewrite H. Qed.

Lemma preprocess_loop_skip classify enable row post :
  process_row classify enable row = ret None ->
  forall pre acc,
    preprocess_loop classify enable (pre ++ row :: post) acc
    = preprocess_loop classify enable (pre ++ post) acc.
Proof.
  intros H pre. induction pre as [|r pre IH]; intros acc.
  - cbn [app preprocess_loop]. now rewrite H.
  - cbn [app preprocess_loop].
    destruct (process_row classify enable r) as [e | [x|]];
      cbn [bind]; auto.
Qed.

Lemma clean_text_returns t : exists u, clean_text t = ret u.
Proof.
  unfold clean_text. destruct (remove_repetitions_returns t) as (r & ->).
  cbn [bind ret]. eauto.
Qed.

(** C1, as the code has it: the structural filter drops exactly the
    rows with fewer than 3 fields or with one of the first three fields
    equal to the empty string or to one space (e.g. [["", "3", "text"]]);
    a dropped row leaves no trace in the output, and no other row is
    dropped by this filter. *)
Theorem structural_filter (classify : str -> str) (enable : bool)
    (row : list str) :
  (structural_reject row = ret true <->
   length row < 3 \/ blank_at row 0 \/ blank_at row 1 \/ blank_at row 2)
  /\ (structural_reject row = ret true \/ structural_reject row = ret false)
  /\ (structural_reject row = ret true ->
      forall pre post,
        preprocess_movie_data classify (pre ++ row :: post) enable
        = preprocess_movie_data classify (pre ++ post) enable)
  /\ preprocess_movie_data classify [[lit ""; lit "3"; lit "text"]] enable
     = ret [].
Proof.
  split; [apply structural_reject_spec|].
  split.
  { destruct row as [|r0 [|r1 [|r2 tl]]];
      try (left; apply structural_reject_short; simpl; lia).
    rewrite structural_reject_cons3.
    destruct (in_blank r0 || in_blank r1 || in_blank r2); auto. }
  split.
  { intros H pre post. unfold preprocess_movie_data.
    apply preprocess_loop_skip. now apply process_row_rejected. }
  unfold preprocess_movie_data. cbn [preprocess_loop].
  rewrite process_row_rejected; [reflexivity|].
  apply structural_reject_spec. right. left.
  exists (lit ""). split; [reflexivity | now left].
Qed.

Lemma structural_filter_witness :
  blank_at [lit ""; lit "3"; lit "text"] 0
  /\ preprocess_movie_data (fun _ => lit "de")
       ([[lit "u"; lit "5"; lit "gut"]] ++ [lit ""; lit "3"; lit "text"] :: [])
       true
     = preprocess_movie_data (fun _ => lit "de")
         ([[lit "u"; lit "5"; lit "gut"]] ++ []) true.
Proof.
  assert (H : blank_at [lit ""; lit "3"; lit "text"] 0).
  { exists (lit ""). split; [reflexivity | now left]. }
  split; [exact H|].
  destruct (structural_filter (fun _ => lit "de") true
              [lit ""; lit "3"; lit "text"]) as (Hiff & _ & Hdrop & _).
  apply Hdrop. apply Hiff. right. left. exact H.
Defined.

(** C1 as stated fails: a row whose first field is two spaces, which
    is whitespace only, is kept. *)
Lemma whitespace_field_kept :
  whitespace_only (lit "  ") = true
  /\ preprocess_movie_data (fun _ => lit "de")
       [[lit "  "; lit "3"; lit "text"]] false
     = ret [Review (lit "  ") 3 (lit "t") []].
Proof. split; vm_compute; reflexivity. Qed.

(** C7: a row of more than 3 fields that passes the structural filter
    has its fields from index 2 on joined with single spaces into the
    one text field, which is what the later steps read; the row
    [["u","5","part1","part2"]] yields the text ["part1 part2"]. *)
Theorem coalesce_joins_fields (classify : str -> str) (enable : bool)
    (row : list str) :
  3 < length row -> structural_reject row = ret false ->
  let joined := join (lit " ") (skipn 2 row) in
  (exists r0 r1,
      nth_error row 0 = Some r0 /\ nth_error row 1 = Some r1
      /\ coalesce row = ret [r0; r1; joined]
      /\ process_row classify enable row =
         if enable && negb (str_eqb (classify joined) (lit "de"))
         then ret None
         else
           movie_review <- clean_text joined ;;
           n <- py_int r1 ;;
           ret (Some (Review r0 n movie_review [])))
  /\ preprocess_movie_data classify
       [[lit "u"; lit "5"; lit "part1"; lit "part2"]] false
     = ret [Review (lit "u") 5 (lit "part1 part2") []].
Proof.
  intros Hlen Hrej joined. split; [|vm_compute; reflexivity].
  destruct row as [|r0 [|r1 [|r2 [|r3 tl]]]]; simpl in Hlen; try lia.
  exists r0, r1. repeat split.
  rewrite structural_reject_cons3 in Hrej. injection Hrej as Hrej.
  rewrite process_row_cons3, Hrej. reflexivity.
Qed.

Lemma coalesce_joins_fields_witness :
  coalesce [lit "u"; lit "5"; lit "part1"; lit "part2"]
  = ret [lit "u"; lit "5"; lit "part1 part2"].
Proof.
  destruct (coalesce_joins_fields (fun _ => lit "de") false
              [lit "u"; lit "5"; lit "part1"; lit "part2"])
    as ((r0 & r1 & H0 & H1 & Hc & _) & _).
  - simpl. lia.
  - reflexivity.
  - injection H0 as <-. injection H1 as <-. exact Hc.
Defined.

(** When every row that passes the structural filter has a stars field
    [int] can parse, the function returns, and its result holds, in
    order, the record of each row that was not dropped. *)
Lemma preprocess_returns_when_parseable (classify : str -> str)
    (enable : bool) (rows : list (list str)) :
  (forall row r1, In row rows -> structural_reject row = ret false ->
                  nth_error row 1 = Some r1 -> exists n, py_int r1 = ret n) ->
  (forall row, In row rows ->
     process_row classify enable row = ret None
     \/ exists r, process_row classify enable row = ret (Some r))
  /\ preprocess_movie_data classify rows enable
     = ret (flat_map (fun row =>
                        match process_row classify enable row with
                        | inr (Some r) => [r]
                        | _ => []
                        end) rows).
Proof.
  intros Hint.
  assert (Hrow : forall row, In row rows ->
     process_row classify enable row = ret None
     \/ exists r, process_row classify enable row = ret (Some r)).
  { intros row Hin.
    destruct row as [|r0 [|r1 [|r2 tl]]];
      try (left; apply process_row_rejected, structural_reject_short;
           simpl; lia).
    specialize (Hint _ r1 Hin). rewrite structural_reject_cons3 in Hint.
    rewrite process_row_cons3.
    destruct (in_blank r0 || in_blank r1 || in_blank r2); [now left|].
    cbv zeta.
    destruct (enable && negb (str_eqb (classify (join (lit " ") (r2 :: tl)))
                                (lit "de"))); [now left|].
    destruct (clean_text_returns (join (lit " ") (r2 :: tl))) as (u & ->).
    destruct (Hint eq_refl eq_refl) as (n & ->).
    right. cbn [bind ret]. eauto. }
  split; [exact Hrow|].
  unfold preprocess_movie_data.
  set (F := fun row : list str =>
              match process_row classify enable row with
              | inr (Some r) => [r]
              | _ => []
              end).
  assert (Hloop : forall acc,
    preprocess_loop classify enable rows acc = ret (acc ++ flat_map F rows));
    [|apply (Hloop [])].
  clear Hint.
  induction rows as [|row rows IH]; intros acc.
  - cbn [preprocess_loop flat_map]. now rewrite app_nil_r.
  - cbn [preprocess_loop flat_map]. unfold F at 1.
    destruct (Hrow row (or_introl eq_refl)) as [-> | (r & ->)]; cbn [bind ret].
    + rewrite IH; [reflexivity|]. intros r Hr. apply Hrow. now right.
    + rewrite IH; [now rewrite <- app_assoc|].
      intros r' Hr. apply Hrow. now right.
Qed.

(** C8 as stated fails: a stars field that is not blank and not an
    integer makes [int] raise, and the exception leaves the function. *)
Lemma unparseable_stars_raise :
  preprocess_movie_data (fun _ => lit "de")
    [[lit "u"; lit "abc"; lit "text"]] false
  = raise (ValueError "invalid literal for int() with base 10").
Proof. vm_compute. reflexivity. Qed.

(** ** [split_dataset] *)

(** C4 (the code at a concrete call): the notebook's [split_dataset]
    binds every partition to [None], whatever it is given; there are
    no partitions whose lengths could add up to the length of the
    input. *)
Theorem split_dataset_returns_none :
  forall (X Y : Type) (x : list X) (y : list Y) (random_seed : Z),
    split_dataset x y random_seed = DataSplit None None None None None None.
Proof. reflexivity. Qed.

(** ** One-hot encoding *)

Local Open Scope Z_scope.

Lemma unit_vector_length position width :
  0 <= position < width ->
  Z.of_nat (length (unit_vector position width)) = width.
Proof.
  intros H. unfold unit_vector.
  rewrite length_app. cbn [List.length]. rewrite !repeat_length. lia.
Qed.

Lemma unit_vector_nth position width i :
  0 <= position < width ->
  nth i (unit_vector position width) 0
  = if Nat.eqb i (Z.to_nat position) then 1 else 0.
Proof.
  intros H. unfold unit_vector.
  destruct (Nat.eqb_spec i (Z.to_nat position)) as [-> | Hne].
  - rewrite app_nth2; rewrite repeat_length; [|lia].
    rewrite Nat.sub_diag. reflexivity.
  - destruct (Nat.lt_ge_cases i (Z.to_nat position)) as [Hlt | Hge].
    + rewrite app_nth1 by (rewrite repeat_length; lia).
      apply nth_repeat.
    + rewrite app_nth2; rewrite repeat_length; [|lia].
      destruct (i - Z.to_nat position)%nat as [|k] eqn:E; [lia|].
      cbn [nth]. apply nth_repeat.
Qed.

Lemma update_repeat (n i : nat) :
  (i < n)%nat ->
  update (repeat 0 n) i 1 = repeat 0 i ++ 1 :: repeat 0 (n - i - 1).
Proof.
  revert i. induction n as [|n IH]; intros i Hi; [lia|].
  destruct i as [|i]; cbn [repeat update app].
  - replace (S n - 0 - 1)%nat with n by lia. reflexivity.
  - rewrite IH by lia. reflexivity.
Qed.

Lemma num_to_one_hot_unfold num len :
  num_to_one_hot num len =
  if (num <? - Z.max 0 len) || (Z.max 0 len <=? num) then raise index_error
  else ret (update (repeat 0 (Z.to_nat len))
                   (Z.to_nat (if num <? 0 then num + Z.max 0 len else num)) 1).
Proof.
  unfold num_to_one_hot, setitem, list_times.
  rewrite repeat_length.
  replace (Z.of_nat (Z.to_nat len)) with (Z.max 0 len) by lia.
  reflexivity.
Qed.

Lemma num_to_one_hot_raises num len :
  num >= len \/ num < - len -> num_to_one_hot num len = raise index_error.
Proof.
  intros H. rewrite num_to_one_hot_unfold.
  destruct (Z.ltb_spec num (- Z.max 0 len)); [reflexivity|].
  destruct (Z.leb_spec (Z.max 0 len) num); [reflexivity|]. lia.
Qed.

Lemma num_to_one_hot_in_range num len :
  0 <= num < len -> num_to_one_hot num len = ret (unit_vector num len).
Proof.
  intros H. rewrite num_to_one_hot_unfold.
  destruct (Z.ltb_spec num (- Z.max 0 len)); [lia|].
  destruct (Z.leb_spec (Z.max 0 len) num); [lia|].
  destruct (Z.ltb_spec num 0); [lia|].
  cbn [orb]. rewrite update_repeat by lia.
  unfold unit_vector. do 4 f_equal. lia.
Qed.

Lemma num_to_one_hot_negative num len :
  - len <= num < 0 -> num_to_one_hot num len = ret (unit_vector (len + num) len).
Proof.
  intros H. rewrite num_to_one_hot_unfold.
  destruct (Z.ltb_spec num (- Z.max 0 len)); [lia|].
  destruct (Z.leb_spec (Z.max 0 len) num); [lia|].
  destruct (Z.ltb_spec num 0); [|lia].
  cbn [orb]. rewrite update_repeat by lia.
  unfold unit_vector. f_equal. f_equal; [f_equal; lia|]. do 2 f_equal. lia.
Qed.

Lemma num_to_one_hot_cases num len :
  num_to_one_hot num len = raise index_error
  \/ exists v, num_to_one_hot num len = ret v.
Proof.
  rewrite num_to_one_hot_unfold.
  destruct ((num <? - Z.max 0 len) || (Z.max 0 len <=? num)); eauto.
Qed.

(** C10: [num_to_one_hot] raises exactly when [num >= length] or
    [num < -length], and then it is the list's index error; a negative
    [num] not below [-length] is accepted and sets position
    [length + num]. *)
Theorem num_to_one_hot_index_error (num len : Z) :
  ((exists e, num_to_one_hot num len = raise e) <->
   (num >= len \/ num < - len))
  /\ (num >= len \/ num < - len ->
      num_to_one_hot num len = raise index_error)
  /\ (- len <= num < 0 ->
      num_to_one_hot num len = ret (unit_vector (len + num) len)
      /\ Z.of_nat (length (unit_vector (len + num) len)) = len
      /\ forall i, nth i (unit_vector (len + num) len) 0
                   = if Nat.eqb i (Z.to_nat (len + num)) then 1 else 0).
Proof.
  split; [|split].
  - split.
    + intros (e & He).
      destruct (Z_lt_ge_dec num len) as [Hlt | Hge]; [|now left].
      destruct (Z_lt_ge_dec num (- len)) as [Hlt' | Hge']; [now right|].
      exfalso.
      destruct (Z_lt_ge_dec num 0) as [Hneg | Hpos].
      * rewrite num_to_one_hot_negative in He by lia. discriminate.
      * rewrite num_to_one_hot_in_range in He by lia. discriminate.
    + intros H. exists index_error. now apply num_to_one_hot_raises.
  - apply num_to_one_hot_raises.
  - intros H. split; [now apply num_to_one_hot_negative|].
    split; [apply unit_vector_length | intros i; apply unit_vector_nth]; lia.
Qed.

Lemma num_to_one_hot_index_error_witness :
  num_to_one_hot 6 6 = raise index_error
  /\ num_to_one_hot (-7) 6 = raise index_error
  /\ num_to_one_hot (-1) 6 = ret [0; 0; 0; 0; 0; 1].
Proof.
  split; [|split].
  - apply (proj1 (proj2 (num_to_one_hot_index_error 6 6))). left. lia.
  - apply (proj1 (proj2 (num_to_one_hot_index_error (-7) 6))). right. lia.
  - apply (proj2 (proj2 (num_to_one_hot_index_error (-1) 6))). lia.
Defined.

Lemma one_hot_entries_overflow {O : Type} (y : list (Z + O)) num len :
  len <= num -> In (inl num) y -> one_hot_entries y len = raise index_error.
Proof.
  intros Hnum. induction y as [|e y IH]; intros Hin; [destruct Hin|].
  cbn [one_hot_entries].
  destruct e as [n | o].
  - destruct (num_to_one_hot_cases n len) as [-> | (v & Hv)]; [reflexivity|].
    rewrite Hv. cbn [bind ret].
    destruct Hin as [[= ->] | Hin].
    + rewrite num_to_one_hot_raises in Hv by lia. discriminate.
    + rewrite (IH Hin). reflexivity.
  - destruct Hin as [[=] | Hin]. cbn [bind ret].
    rewrite (IH Hin). reflexivity.
Qed.

(** C3, as the code has it: a label at or above the width makes
    [num_to_one_hot], and [y_to_one_hot] on any list that holds it,
    raise the index error of the list assignment; nothing is written
    and nothing truncated.  So does label 7 against width 6. *)
Theorem label_overflow_raises (O : Type) (S : Shaped O) (y : list (Z + O))
    (num len : Z) :
  len <= num ->
  num_to_one_hot num len = raise index_error
  /\ (In (inl num) y -> y_to_one_hot y len = raise index_error)
  /\ num_to_one_hot 7 6 = raise index_error.
Proof.
  intros H. split; [apply num_to_one_hot_raises; lia|].
  split.
  - intros Hin. unfold y_to_one_hot.
    now rewrite (one_hot_entries_overflow y num len H Hin).
  - apply num_to_one_hot_raises. lia.
Qed.

Lemma label_overflow_raises_witness :
  y_to_one_hot (O := Empty_set) [inl 2; inl 7; inl 0] 6 = raise index_error.
Proof.
  apply (proj1 (proj2 (label_overflow_raises Empty_set Shaped_Empty_set
                         [inl 2; inl 7; inl 0] 7 6 ltac:(lia)))).
  right. left. reflexivity.
Defined.

(** C3 as stated fails: the error raised for label 7 against width 6
    is the list's own index error, whose message does not name the
    label. *)
Lemma overflow_error_unlabelled :
  num_to_one_hot 7 6 = raise (IndexError "list assignment index out of range")
  /\ names_label (IndexError "list assignment index out of range") 7 = false.
Proof. split; vm_compute; reflexivity. Qed.

Lemma fold_left_max_ge l : forall a,
  a <= fold_left Z.max l a
  /\ (forall e, In e l -> e <= fold_left Z.max l a)
  /\ In (fold_left Z.max l a) (a :: l).
Proof.
  induction l as [|b l IH]; intros a; cbn [fold_left].
  - repeat split; [lia | intros e [] | now left].
  - destruct (IH (Z.max a b)) as (H1 & H2 & H3). repeat split.
    + lia.
    + intros e [<- | He]; [lia | now apply H2].
    + destruct H3 as [H3 | H3]; [|right; now right].
      rewrite <- H3.
      destruct (Z.max_spec a b) as [(_ & ->) | (_ & ->)];
        [right; now left | now left].
Qed.

Lemma list_max_spec l :
  l <> [] -> In (list_max l) l /\ forall e, In e l -> e <= list_max l.
Proof.
  destruct l as [|a l]; [congruence|]. intros _. cbn [list_max].
  destruct (fold_left_max_ge l a) as (H1 & H2 & H3).
  split; [exact H3|]. intros e [<- | He]; auto.
Qed.

Local Close Scope Z_scope.

(** * Further properties of the code *)

(** ** [remove_repetitions]: what is matched and what is returned *)

Module RepetitionFacts.

Lemma dotlen_app_nonl p t : nonl p -> length p <= dotlen (p ++ t).
Proof.
  induction 1 as [|c p Hc _ IH]; simpl; [lia|].
  rewrite Hc. lia.
Qed.

Lemma pows_steps p n : forall a t,
  lookup 1 (groups a) = Some p ->
  rest a = concat (repeat p n) ++ t ->
  exists b, steps (exec (Backref 1)) n a b /\ rest b = t.
Proof.
  induction n as [|n IH]; intros a t Hp Hr.
  - exists a. split; [constructor | exact Hr].
  - cbn [repeat concat] in Hr. rewrite <- app_assoc in Hr.
    destruct (IH (MState (pos a + length p) (concat (repeat p n) ++ t)
                         (groups a)) t Hp eq_refl) as (b & Hb & Hb').
    exists b. split; [|exact Hb'].
    eapply steps_S; [|exact Hb].
    apply exec_Backref_in. exists p, (concat (repeat p n) ++ t). auto.
Qed.

Lemma concat_repeat_length (p : str) n :
  length (concat (repeat p n)) = n * length p.
Proof.
  induction n as [|n IH]; simpl; [reflexivity|].
  rewrite length_app, IH. reflexivity.
Qed.

Lemma REST_fast_complete p a f n tl :
  lookup 1 (groups a) = Some p -> p <> [] -> filler f -> tail tl ->
  rest a = f ++ concat (repeat p (S n)) ++ tl ->
  exec REST_fast a <> [].
Proof.
  intros Hp Hne Hf Ht Hr.
  set (x := MState (pos a + length f) (concat (repeat p (S n)) ++ tl)
                   (groups a)).
  destruct (pows_steps p (S n) x tl Hp eq_refl) as (b & Hb & Hb').
  assert (Hin : In b (exec REST_fast a)).
  { unfold REST_fast. cbn [exec]. apply in_flat_map. exists x. split.
    - apply exec_DOTS02_in. exists f, (concat (repeat p (S n)) ++ tl). auto.
    - apply in_flat_map. exists b. split.
      + apply repeat_from_spec; [exact I|].
        exists (S n). repeat split; [lia | | exact Hb].
        unfold x. cbn [rest]. rewrite length_app, concat_repeat_length.
        assert (0 < length p) by (destruct p; [congruence | simpl; lia]).
        apply Nat.lt_succ_r. nia.
      + apply exec_Eol_in. rewrite Hb'. auto. }
  intros E. rewrite E in Hin. exact Hin.
Qed.

Lemma search_fast_some s i :
  1 <= i <= dotlen s -> exec REST_fast (G1_state s i) <> [] ->
  search REPEATER_fast s <> None.
Proof.
  intros Hi Hne. rewrite REPEATER_fast_shape, search_G1.
  pose proof (flat_map_seq_nonempty
                (fun i => exec REST_fast (G1_state s i)) (dotlen s) 1 i) as H.
  destruct (flat_map (fun i0 => exec REST_fast (G1_state s i0))
              (seq 1 (dotlen s))).
  - exfalso. apply H; [lia | exact Hne | reflexivity].
  - discriminate.
Qed.

Lemma gate_shape_sound s :
  search REPEATER_fast s <> None -> gate_shape s.
Proof.
  destruct (search REPEATER_fast s) as [m|] eqn:E; [intros _ | congruence].
  apply search_fast_inv in E. destruct E as (i & Hi & Hm).
  pose proof (dotlen_le s) as Hd.
  apply (REST_fast_sound (firstn i s)) in Hm; [|apply G1_state_group].
  destruct Hm as (f & n & tl & Hf & Ht & Hr). cbn [G1_state rest] in Hr.
  exists (firstn i s), f, n, tl. repeat split; try apply Hf; auto.
  - apply firstn_nonempty. lia.
  - apply nonl_firstn. lia.
  - rewrite <- (firstn_skipn i s) at 1. f_equal. exact Hr.
Qed.

Lemma gate_shape_complete s :
  gate_shape s -> search REPEATER_fast s <> None.
Proof.
  intros (p & f & n & tl & Hne & Hnl & Hf & Ht & ->).
  assert (Hlen : 1 <= length p) by (destruct p; [congruence | simpl; lia]).
  apply (search_fast_some _ (length p)).
  - split; [exact Hlen | now apply dotlen_app_nonl].
  - apply (REST_fast_complete p _ f n tl); auto.
    + cbn [G1_state groups lookup Nat.eqb].
      now rewrite firstn_app, Nat.sub_diag, firstn_all, app_nil_r.
    + cbn [G1_state rest].
      now rewrite skipn_app, Nat.sub_diag, skipn_all, app_nil_l.
Qed.

(** What the function returns where the gate matches: the first [i]
    characters, for the least [i] at which the rest is copies of them. *)
Lemma gate_result s :
  search REPEATER_fast s <> None ->
  exists i n tl,
    1 <= i <= dotlen s
    /\ remove_repetitions s = ret (Some (firstn i s))
    /\ reps_n (firstn i s) (S n) (skipn i s) tl /\ tail tl
    /\ forall j, 1 <= j < i -> exec REST_exact (G1_state s j) = [].
Proof.
  intros Hf. unfold remove_repetitions.
  destruct (search REPEATER_fast s) as [m|] eqn:Ef; [|congruence].
  pose proof (fast_implies_exact s m Ef) as He.
  destruct (search REPEATER_exact s) as [me|] eqn:Ee; [|congruence].
  apply search_exact_inv in Ee. destruct Ee as (i & Hi & Hm & Hmin).
  destruct (REST_exact_sound (firstn i s) _ _ (G1_state_group s i) Hm)
    as ((n & tl & Hreps & Htl) & Hg).
  exists i, n, tl. unfold group. rewrite Hg. auto.
Qed.

Lemma exact_shape_matches q s :
  exact_shape q s -> exec REST_exact (G1_state s (length q)) <> [].
Proof.
  intros (Hne & Hnl & n & t & tl & -> & Hreps & Ht).
  apply (REST_exact_complete q _ n tl); auto.
  - cbn [G1_state groups lookup Nat.eqb].
    now rewrite firstn_app, Nat.sub_diag, firstn_all, app_nil_r.
  - cbn [G1_state rest].
    now rewrite skipn_app, Nat.sub_diag, skipn_all, app_nil_l.
Qed.

End RepetitionFacts.

Import RepetitionFacts.

Lemma remove_repetitions_no_gate s :
  search REPEATER_fast s = None -> remove_repetitions s = ret (Some s).
Proof. intros H. unfold remove_repetitions. now rewrite H. Qed.

Lemma gate_result_shorter s i n tl :
  1 <= i <= dotlen s ->
  reps_n (firstn i s) (S n) (skipn i s) tl -> i < length s.
Proof.
  intros Hi Hreps. pose proof (dotlen_le s) as Hd.
  apply reps_n_length in Hreps.
  assert (H1 : length (firstn i s) = i) by (rewrite length_firstn; lia).
  rewrite H1, length_skipn in Hreps. nia.
Qed.

(** X1: [remove_repetitions] returns a prefix of its argument, and
    the empty string only for the empty string. *)
Theorem remove_repetitions_prefix (s : str) :
  exists r t, remove_repetitions s = ret (Some r) /\ s = r ++ t
              /\ (r = [] <-> s = []).
Proof.
  destruct (search REPEATER_fast s) as [m|] eqn:E.
  - destruct (gate_result s) as (i & n & tl & Hi & Hr & _); [congruence|].
    pose proof (dotlen_le s) as Hd.
    exists (firstn i s), (skipn i s).
    split; [exact Hr|]. split; [symmetry; apply firstn_skipn|].
    split.
    + intros H. exfalso. revert H. apply firstn_nonempty. lia.
    + intros ->. simpl in Hi. lia.
  - exists s, []. split; [now apply remove_repetitions_no_gate|].
    split; [now rewrite app_nil_r | tauto].
Qed.

(** X2: the strings [remove_repetitions] leaves unchanged are those
    the gating pattern does not match; where it matches, the result is
    not empty, has no newline and is strictly shorter than the
    argument. *)
Theorem remove_repetitions_fixed_point (s : str) :
  (remove_repetitions s = ret (Some s) <-> search REPEATER_fast s = None)
  /\ (search REPEATER_fast s <> None ->
      exists r, remove_repetitions s = ret (Some r)
                /\ r <> [] /\ nonl r /\ length r < length s).
Proof.
  assert (Hgate : search REPEATER_fast s <> None ->
      exists r, remove_repetitions s = ret (Some r)
                /\ r <> [] /\ nonl r /\ length r < length s).
  { intros H.
    destruct (gate_result s H) as (i & n & tl & Hi & Hr & Hreps & _).
    pose proof (dotlen_le s) as Hd.
    pose proof (gate_result_shorter s i n tl Hi Hreps) as Hlt.
    exists (firstn i s). split; [exact Hr|].
    split; [apply firstn_nonempty; lia|].
    split; [apply nonl_firstn; lia|].
    rewrite length_firstn. lia. }
  split; [|exact Hgate]. split.
  - intros Hs. destruct (search REPEATER_fast s) as [m|] eqn:E; [|reflexivity].
    exfalso. destruct Hgate as (r & Hr & _ & _ & Hlt); [congruence|].
    rewrite Hs in Hr. injection Hr as <-. lia.
  - apply remove_repetitions_no_gate.
Qed.

Lemma remove_repetitions_fixed_point_witness :
  exists r, remove_repetitions (lit "hahaha") = ret (Some r)
            /\ r <> [] /\ nonl r /\ length r < length (lit "hahaha").
Proof.
  apply (proj2 (remove_repetitions_fixed_point (lit "hahaha"))).
  vm_compute. discriminate.
Defined.

(** X3: the gating pattern matches exactly the strings made of a
    prefix without newline, at most two further characters other than
    newline, and one or more copies of the prefix up to the end or up
    to one final newline. *)
Theorem gate_matches_iff (s : str) :
  search REPEATER_fast s <> None <-> gate_shape s.
Proof.
  split; [apply gate_shape_sound | apply gate_shape_complete].
Qed.

Lemma gate_matches_iff_witness :
  gate_shape (lit "ha, haha") /\ search REPEATER_fast (lit "ha, haha") <> None.
Proof.
  assert (H : gate_shape (lit "ha, haha")).
  { exists (lit "ha"), (lit ", "), 1, [].
    split; [discriminate|].
    split; [repeat constructor|].
    split; [split; [simpl; lia | repeat constructor]|].
    split; [now left | reflexivity]. }
  split; [exact H|].
  exact (proj2 (gate_matches_iff (lit "ha, haha")) H).
Defined.

(** X4: where the gate matches, the result is the shortest prefix
    whose copies, each after at most two other characters, make up the
    rest of the string. *)
Theorem remove_repetitions_shortest_period (s : str) :
  search REPEATER_fast s <> None ->
  exists r, remove_repetitions s = ret (Some r)
            /\ exact_shape r s
            /\ forall q, exact_shape q s -> length r <= length q.
Proof.
  intros H.
  destruct (gate_result s H) as (i & n & tl & Hi & Hr & Hreps & Htl & Hmin).
  pose proof (dotlen_le s) as Hd.
  exists (firstn i s). split; [exact Hr|]. split.
  - split; [apply firstn_nonempty; lia|].
    split; [apply nonl_firstn; lia|].
    exists n, (skipn i s), tl.
    split; [symmetry; apply firstn_skipn | auto].
  - intros q Hq. rewrite length_firstn.
    destruct (Nat.le_gt_cases i (length q)) as [Hle | Hgt]; [lia|].
    exfalso. apply (exact_shape_matches q s Hq). apply Hmin.
    destruct Hq as (Hne & _).
    assert (0 < length q) by (destruct q; [congruence | simpl; lia]). lia.
Qed.

Lemma remove_repetitions_shortest_period_witness :
  exists r, remove_repetitions (lit "hahaha") = ret (Some r)
            /\ exact_shape r (lit "hahaha")
            /\ forall q, exact_shape q (lit "hahaha") -> length r <= length q.
Proof.
  apply (remove_repetitions_shortest_period (lit "hahaha")).
  vm_compute. discriminate.
Defined.

(** X5: a word without newline written two or more times in a row
    (and possibly a final newline) collapses to a prefix of the word. *)
Theorem repeated_word_collapses (w tl : str) (k : nat) :
  w <> [] -> nonl w -> tail tl ->
  exists r t,
    remove_repetitions (concat (repeat w (S (S k))) ++ tl) = ret (Some r)
    /\ w = r ++ t.
Proof.
  intros Hne Hnl Htl.
  set (s := concat (repeat w (S (S k))) ++ tl).
  assert (Hs : s = w ++ concat (repeat w (S k)) ++ tl).
  { unfold s. cbn [repeat concat]. now rewrite <- !app_assoc. }
  assert (Hshape : exact_shape w s).
  { split; [exact Hne|]. split; [exact Hnl|].
    exists k, (concat (repeat w (S k)) ++ tl), tl.
    split; [exact Hs|]. split; [apply reps_n_pows | exact Htl]. }
  assert (Hgate : search REPEATER_fast s <> None).
  { apply gate_shape_complete. exists w, [], k, tl.
    split; [exact Hne|]. split; [exact Hnl|].
    split; [apply filler_nil|]. split; [exact Htl | exact Hs]. }
  destruct (gate_result s Hgate) as (i & n & tl' & Hi & Hr & _ & _ & Hmin).
  assert (Hle : i <= length w).
  { destruct (Nat.le_gt_cases i (length w)) as [Hle | Hgt]; [exact Hle|].
    exfalso. apply (exact_shape_matches w s Hshape). apply Hmin.
    assert (0 < length w) by (destruct w; [congruence | simpl; lia]). lia. }
  exists (firstn i s), (skipn i w). split; [exact Hr|].
  rewrite Hs, firstn_app.
  replace (i - length w) with 0 by lia.
  rewrite firstn_O, app_nil_r. symmetry. apply firstn_skipn.
Qed.

Lemma repeated_word_collapses_witness :
  exists r t,
    remove_repetitions (concat (repeat (lit "toll") 3) ++ [newline])
    = ret (Some r)
    /\ lit "toll" = r ++ t.
Proof.
  apply (repeated_word_collapses (lit "toll") [newline] 1).
  - discriminate.
  - repeat constructor.
  - now right.
Defined.

(** ** [preprocess_movie_data]: the records and the errors *)

Lemma py_int_raises s e : py_int s = raise e -> e = invalid_literal.
Proof.
  unfold py_int, invalid_literal. destruct (strip s) as [|c t].
  - intros [= <-]. reflexivity.
  - destruct (Ascii.eqb c "-"); [|destruct (Ascii.eqb c "+")];
      match goal with
      | |- context [parse_digits ?a ?b ?l] => destruct (parse_digits a b l)
      end;
      first [discriminate | intros [= <-]; reflexivity].
Qed.

Lemma clean_text_no_newline t u : clean_text t = ret u -> ~ In newline u.
Proof.
  unfold clean_text. destruct (remove_repetitions_returns t) as (r & ->).
  cbn [bind ret]. intros [= <-] H.
  unfold replace in H. apply in_map_iff in H. destruct H as (c & Hc & _).
  destruct (Ascii.eqb c newline) eqn:E.
  - discriminate.
  - apply Ascii.eqb_neq in E. congruence.
Qed.

Lemma in_blank_false x : in_blank x = false -> ~ is_blank x.
Proof.
  intros H Hb. apply in_blank_spec in Hb. congruence.
Qed.

(** The three outcomes of one turn of the loop. *)
Lemma process_row_cases classify enable row :
  process_row classify enable row = ret None
  \/ (exists r, process_row classify enable row = ret (Some r)
                /\ record_of classify enable row r)
  \/ process_row classify enable row = raise invalid_literal.
Proof.
  destruct row as [|r0 [|r1 [|r2 tl]]];
    try (left; apply process_row_rejected, structural_reject_short;
         simpl; lia).
  rewrite process_row_cons3.
  destruct (in_blank r0 || in_blank r1 || in_blank r2) eqn:Eb; [now left|].
  apply orb_false_iff in Eb. destruct Eb as (Eb & E2).
  apply orb_false_iff in Eb. destruct Eb as (E0 & E1).
  cbv zeta.
  destruct (enable && negb (str_eqb (classify (join (lit " ") (r2 :: tl)))
                              (lit "de"))) eqn:El; [now left|].
  destruct (clean_text (join (lit " ") (r2 :: tl))) as [e | u] eqn:Ec.
  { destruct (clean_text_returns (join (lit " ") (r2 :: tl))) as (u & Hu).
    rewrite Hu in Ec. discriminate. }
  destruct (py_int r1) as [e | n] eqn:Ei; cbn [bind ret].
  - right. right. apply py_int_raises in Ei. now subst e.
  - right. left. eexists. split; [reflexivity|].
    exists r0, r1, r2, tl. cbn [url stars text tokens].
    repeat split; auto using in_blank_false.
    intros ->. cbn [andb] in El. apply negb_false_iff in El.
    now apply str_eqb_eq in El.
Qed.

Lemma process_row_record classify enable row r :
  process_row classify enable row = ret (Some r) ->
  record_of classify enable row r.
Proof.
  intros H.
  destruct (process_row_cases classify enable row)
    as [H' | [(r' & H' & Hr) | H']]; rewrite H in H'; try discriminate.
  injection H' as <-. exact Hr.
Qed.

Lemma preprocess_loop_acc classify enable rows : forall acc,
  preprocess_loop classify enable rows acc
  = (out <- preprocess_loop classify enable rows [] ;; ret (acc ++ out)).
Proof.
  induction rows as [|row rows IH]; intros acc.
  - cbn [preprocess_loop bind ret]. now rewrite app_nil_r.
  - cbn [preprocess_loop].
    destruct (process_row classify enable row) as [e | [r|]]; cbn [bind].
    + reflexivity.
    + rewrite (IH (acc ++ [r])), (IH ([] ++ [r])).
      destruct (preprocess_loop classify enable rows []); cbn [bind ret];
        [reflexivity | now rewrite <- app_assoc].
    + apply IH.
Qed.

Lemma preprocess_loop_app classify enable a b : forall acc,
  preprocess_loop classify enable (a ++ b) acc
  = (out <- preprocess_loop classify enable a acc ;;
     preprocess_loop classify enable b out).
Proof.
  induction a as [|row a IH]; intros acc; [reflexivity|].
  cbn [app preprocess_loop].
  destruct (process_row classify enable row) as [e | [r|]]; cbn [bind];
    [reflexivity | apply IH | apply IH].
Qed.

Lemma preprocess_loop_returns classify enable rows : forall out,
  preprocess_loop classify enable rows [] = ret out ->
  out = flat_map (records_of_row classify enable) rows.
Proof.
  induction rows as [|row rows IH]; intros out H.
  - injection H as <-. reflexivity.
  - cbn [preprocess_loop flat_map] in *. unfold records_of_row at 1.
    destruct (process_row classify enable row) as [e | [r|]]; cbn [bind] in H.
    + discriminate.
    + rewrite preprocess_loop_acc in H.
      destruct (preprocess_loop classify enable rows []) as [e | out'];
        [discriminate|].
      cbn [bind ret] in H. injection H as <-.
      now rewrite (IH out' eq_refl).
    + now apply IH.
Qed.

Lemma records_of_row_in classify enable row r :
  In r (records_of_row classify enable row) ->
  process_row classify enable row = ret (Some r).
Proof.
  unfold records_of_row.
  destruct (process_row classify enable row) as [e | [r'|]];
    [intros [] | intros [<- | []]; reflexivity | intros []].
Qed.

Lemma preprocess_record_in classify enable rows out r :
  preprocess_movie_data classify rows enable = ret out -> In r out ->
  exists row, In row rows /\ process_row classify enable row = ret (Some r).
Proof.
  unfold preprocess_movie_data. intros H Hr.
  apply preprocess_loop_returns in H. subst out.
  apply in_flat_map in Hr. destruct Hr as (row & Hrow & Hr).
  exists row. split; [exact Hrow | now apply records_of_row_in].
Qed.

Lemma process_row_raises classify enable row e :
  process_row classify enable row = raise e ->
  e = invalid_literal
  /\ structural_reject row = ret false
  /\ exists r1, nth_error row 1 = Some r1 /\ py_int r1 = raise invalid_literal.
Proof.
  intros H.
  destruct row as [|r0 [|r1 [|r2 tl]]];
    try (rewrite process_row_rejected in H
           by (apply structural_reject_short; simpl; lia);
         discriminate).
  rewrite process_row_cons3 in H. rewrite structural_reject_cons3.
  destruct (in_blank r0 || in_blank r1 || in_blank r2); [discriminate|].
  cbv zeta in H.
  destruct (enable && negb (str_eqb (classify (join (lit " ") (r2 :: tl)))
                              (lit "de"))); [discriminate|].
  destruct (clean_text_returns (join (lit " ") (r2 :: tl))) as (u & Hu).
  rewrite Hu in H. cbn [bind ret] in H.
  destruct (py_int r1) as [e' | n] eqn:Ei; cbn [bind ret] in H;
    [|discriminate].
  injection H as <-. apply py_int_raises in Ei as He. subst e'.
  split; [reflexivity|]. split; [reflexivity|].
  exists r1. split; [reflexivity | exact Ei].
Qed.

Lemma preprocess_movie_data_app classify enable a b :
  preprocess_movie_data classify (a ++ b) enable
  = (ra <- preprocess_movie_data classify a enable ;;
     rb <- preprocess_movie_data classify b enable ;;
     ret (ra ++ rb)).
Proof.
  unfold preprocess_movie_data. rewrite preprocess_loop_app.
  destruct (preprocess_loop classify enable a []) as [e | ra]; cbn [bind];
    [reflexivity | apply preprocess_loop_acc].
Qed.

(** X6: the only exception [preprocess_movie_data] raises is the
    [ValueError] of [int], and then some row that passes the structural
    filter has a second field [int] rejects. *)
Theorem preprocess_raises_only_value_error (classify : str -> str)
    (enable : bool) (rows : list (list str)) (e : exn) :
  preprocess_movie_data classify rows enable = raise e ->
  e = invalid_literal
  /\ exists row r1,
       In row rows /\ structural_reject row = ret false
       /\ nth_error row 1 = Some r1 /\ py_int r1 = raise invalid_literal.
Proof.
  unfold preprocess_movie_data. generalize (@nil review).
  induction rows as [|row rows IH]; intros acc H; [discriminate|].
  cbn [preprocess_loop] in H.
  destruct (process_row classify enable row) as [e' | o] eqn:Er.
  - cbn [bind] in H. injection H as <-.
    destruct (process_row_raises classify enable row e' Er)
      as (-> & Hrej & r1 & H1 & Hi).
    split; [reflexivity|]. exists row, r1. repeat split; auto. now left.
  - cbn [bind] in H.
    assert (Hrec : exists acc', preprocess_loop classify enable rows acc' = raise e)
      by (destruct o; eauto).
    destruct Hrec as (acc' & Hrec).
    destruct (IH acc' Hrec) as (-> & row' & r1 & Hin & Hrest).
    split; [reflexivity|]. exists row', r1. split; [now right | exact Hrest].
Qed.

Lemma preprocess_raises_only_value_error_witness :
  exists row r1,
    In row [[lit "u"; lit "5"; lit "gut"]; [lit "v"; lit "4.5"; lit "naja"]]
    /\ structural_reject row = ret false
    /\ nth_error row 1 = Some r1 /\ py_int r1 = raise invalid_literal.
Proof.
  apply (preprocess_raises_only_value_error (fun _ => lit "de") false
           [[lit "u"; lit "5"; lit "gut"]; [lit "v"; lit "4.5"; lit "naja"]]
           invalid_literal).
  vm_compute. reflexivity.
Defined.

(** X7: rows are processed one by one: the result for two lists of
    rows put together is the two results put together, and the error
    of the first list, else of the second, if one raises. *)
Theorem preprocess_app (classify : str -> str) (enable : bool)
    (a b : list (list str)) :
  preprocess_movie_data classify (a ++ b) enable
  = (ra <- preprocess_movie_data classify a enable ;;
     rb <- preprocess_movie_data classify b enable ;;
     ret (ra ++ rb)).
Proof. apply preprocess_movie_data_app. Qed.

(** X8: a run that returns gives at most one record per row, and each
    record comes from a row of at least three fields, none of the first
    three blank: its url is the first field, its stars the integer of
    the second, its text the cleaned join of the others, its tokens
    empty; with the language filter on, the joined text is classified
    ['de']. *)
Theorem preprocess_records_sound (classify : str -> str) (enable : bool)
    (rows : list (list str)) (out : list review) :
  preprocess_movie_data classify rows enable = ret out ->
  length out <= length rows
  /\ forall r, In r out ->
       exists row, In row rows /\ record_of classify enable row r.
Proof.
  intros H. split.
  - unfold preprocess_movie_data in H.
    apply preprocess_loop_returns in H. subst out.
    induction rows as [|row rows IH]; [simpl; lia|].
    cbn [flat_map]. rewrite length_app. unfold records_of_row at 1.
    destruct (process_row classify enable row) as [e | [r|]]; simpl; lia.
  - intros r Hr.
    destruct (preprocess_record_in classify enable rows out r H Hr)
      as (row & Hrow & Hp).
    exists row. split; [exact Hrow | now apply process_row_record].
Qed.

Lemma preprocess_records_sound_witness :
  length [Review (lit "u") 5 (lit "gut") []]
  <= length [[lit "u"; lit "5"; lit "gut"]; [lit "x"]]
  /\ forall r, In r [Review (lit "u") 5 (lit "gut") []] ->
       exists row, In row [[lit "u"; lit "5"; lit "gut"]; [lit "x"]]
                   /\ record_of (fun _ => lit "de") true row r.
Proof.
  apply (preprocess_records_sound (fun _ => lit "de") true
           [[lit "u"; lit "5"; lit "gut"]; [lit "x"]]).
  vm_compute. reflexivity.
Defined.

(** X9: no text in the result holds a newline. *)
Theorem preprocess_text_no_newline (classify : str -> str) (enable : bool)
    (rows : list (list str)) (out : list review) :
  preprocess_movie_data classify rows enable = ret out ->
  forall r, In r out -> ~ In newline (text r).
Proof.
  intros H r Hr.
  destruct (preprocess_record_in classify enable rows out r H Hr)
    as (row & _ & Hp).
  apply process_row_record in Hp.
  destruct Hp as (r0 & r1 & r2 & tl & _ & _ & _ & _ & _ & _ & _ & Hc & _).
  now apply clean_text_no_newline in Hc.
Qed.

Lemma preprocess_text_no_newline_witness :
  ~ In newline (text (Review (lit "u") 5 ("a" :: space :: "b" :: nil)%char [])).
Proof.
  apply (preprocess_text_no_newline (fun _ => lit "de") false
           [[lit "u"; lit "5"; ("a" :: newline :: "b" :: nil)%char]]
           [Review (lit "u") 5 ("a" :: space :: "b" :: nil)%char []]).
  - vm_compute. reflexivity.
  - left. reflexivity.
Defined.

(** X10: filtering by language inside the loop is filtering the rows
    beforehand: with [enable_langid] the function does what it does
    without it on the rows whose text is classified ['de']. *)
Theorem language_filter_is_prefilter (classify : str -> str)
    (rows : list (list str)) :
  preprocess_movie_data classify rows true
  = preprocess_movie_data classify (filter (german classify) rows) false.
Proof.
  unfold preprocess_movie_data. generalize (@nil review).
  induction rows as [|row rows IH]; intros acc; [reflexivity|].
  cbn [filter]. destruct (german classify row) eqn:Eg.
  - cbn [preprocess_loop].
    assert (Hrow : process_row classify true row
                   = process_row classify false row).
    { destruct row as [|r0 [|r1 [|r2 tl]]];
        try (rewrite !process_row_rejected
               by (apply structural_reject_short; simpl; lia);
             reflexivity).
      rewrite !process_row_cons3. unfold german in Eg. cbn [skipn] in Eg.
      cbv zeta. rewrite Eg. reflexivity. }
    rewrite Hrow.
    destruct (process_row classify false row) as [e | [r|]]; cbn [bind];
      [reflexivity | apply IH | apply IH].
  - cbn [preprocess_loop].
    assert (Hrow : process_row classify true row = ret None).
    { destruct row as [|r0 [|r1 [|r2 tl]]];
        try (apply process_row_rejected, structural_reject_short;
             simpl; lia).
      rewrite process_row_cons3. unfold german in Eg. cbn [skipn] in Eg.
      cbv zeta. rewrite Eg.
      destruct (in_blank r0 || in_blank r1 || in_blank r2); reflexivity. }
    rewrite Hrow. cbn [bind ret]. apply IH.
Qed.

(** X11: a row that raises ends the run: once the rows before it have
    been processed without error, the error of that row is the outcome,
    whatever rows follow, and the records collected so far are lost. *)
Theorem first_bad_row_aborts (classify : str -> str) (enable : bool)
    (pre post : list (list str)) (row : list str) (r1 : str)
    (out : list review) :
  preprocess_movie_data classify pre enable = ret out ->
  structural_reject row = ret false ->
  enable = false \/ german classify row = true ->
  nth_error row 1 = Some r1 -> py_int r1 = raise invalid_literal ->
  preprocess_movie_data classify (pre ++ row :: post) enable
  = raise invalid_literal.
Proof.
  intros Hpre Hrej Hlang H1 Hint.
  rewrite preprocess_movie_data_app, Hpre. cbn [bind].
  assert (Hrow : process_row classify enable row = raise invalid_literal).
  { destruct row as [|r0 [|r1' [|r2 tl]]]; try discriminate.
    injection H1 as ->.
    rewrite structural_reject_cons3 in Hrej. injection Hrej as Hrej.
    rewrite process_row_cons3, Hrej. cbv zeta.
    assert (Hl : enable && negb (str_eqb (classify (join (lit " ") (r2 :: tl)))
                                   (lit "de")) = false).
    { destruct Hlang as [-> | Hg]; [reflexivity|].
      unfold german in Hg. cbn [skipn] in Hg. rewrite Hg.
      now destruct enable. }
    rewrite Hl.
    destruct (clean_text_returns (join (lit " ") (r2 :: tl))) as (u & ->).
    cbn [bind ret]. rewrite Hint. reflexivity. }
  unfold preprocess_movie_data at 1. cbn [preprocess_loop].
  rewrite Hrow. reflexivity.
Qed.

Lemma first_bad_row_aborts_witness :
  preprocess_movie_data (fun _ => lit "de")
    ([[lit "u"; lit "5"; lit "gut"]]
       ++ [lit "v"; lit "4.5"; lit "naja"] :: [[lit "w"; lit "1"; lit "mies"]])
    true
  = raise invalid_literal.
Proof.
  apply (first_bad_row_aborts (fun _ => lit "de") true
           [[lit "u"; lit "5"; lit "gut"]] [[lit "w"; lit "1"; lit "mies"]]
           [lit "v"; lit "4.5"; lit "naja"] (lit "4.5")
           [Review (lit "u") 5 (lit "gut") []]).
  - vm_compute. reflexivity.
  - reflexivity.
  - right. reflexivity.
  - reflexivity.
  - vm_compute. reflexivity.
Defined.

(** ** One-hot vectors: which labels are accepted, and decoding *)

Local Open Scope Z_scope.

Lemma num_to_one_hot_fits num len :
  - len <= num < len ->
  num_to_one_hot num len = ret (unit_vector (wrap_index num len) len).
Proof.
  intros H. unfold wrap_index. destruct (Z.ltb_spec num 0).
  - apply num_to_one_hot_negative. lia.
  - apply num_to_one_hot_in_range. lia.
Qed.

Lemma num_to_one_hot_ret_inv num len v :
  num_to_one_hot num len = ret v ->
  - len <= num < len /\ v = unit_vector (wrap_index num len) len.
Proof.
  intros H.
  assert (Hfit : - len <= num < len).
  { destruct (Z_lt_ge_dec num len) as [Hlt | Hge].
    - destruct (Z_lt_ge_dec num (- len)) as [Hlt' | Hge']; [|lia].
      rewrite num_to_one_hot_raises in H by lia. discriminate.
    - rewrite num_to_one_hot_raises in H by lia. discriminate. }
  split; [exact Hfit|].
  rewrite num_to_one_hot_fits in H by exact Hfit. now injection H as <-.
Qed.

Lemma wrap_index_range num len :
  - len <= num < len -> 0 <= wrap_index num len < len.
Proof. unfold wrap_index. destruct (Z.ltb_spec num 0); lia. Qed.

Lemma one_hot_entries_spec {O : Type} (y : list (Z + O)) len r :
  one_hot_entries y len = ret r <->
  (forall n, In (inl n) y -> - len <= n < len)
  /\ r = map (encode_element len) y.
Proof.
  revert r. induction y as [|e y IH]; intros r.
  - cbn [one_hot_entries map]. split.
    + intros [= <-]. split; [intros n [] | reflexivity].
    + intros (_ & ->). reflexivity.
  - cbn [one_hot_entries map]. destruct e as [n | o]; cbn [encode_element].
    + destruct (num_to_one_hot n len) as [e | v] eqn:En; cbn [bind ret].
      * split; [discriminate|]. intros (Hfit & _).
        rewrite num_to_one_hot_fits in En by (apply Hfit; now left).
        discriminate.
      * apply num_to_one_hot_ret_inv in En. destruct En as (Hn & ->).
        destruct (one_hot_entries y len) as [e | t] eqn:Et; cbn [bind ret].
        -- split; [discriminate|]. intros (Hfit & _).
           assert (Ht : inl e = ret (map (encode_element len) y)).
           { apply IH. split; [|reflexivity].
             intros m Hm. apply Hfit. now right. }
           discriminate.
        -- destruct (proj1 (IH t) eq_refl) as (Hfit & ->). split.
           ++ intros [= <-]. split; [|reflexivity].
              intros m [[= <-] | Hm]; auto.
           ++ intros (_ & ->). reflexivity.
    + cbn [bind ret].
      destruct (one_hot_entries y len) as [e | t] eqn:Et; cbn [bind ret].
      * split; [discriminate|]. intros (Hfit & _).
        assert (Ht : inl e = ret (map (encode_element len) y)).
        { apply IH. split; [|reflexivity].
          intros m Hm. apply Hfit. now right. }
        discriminate.
      * destruct (proj1 (IH t) eq_refl) as (Hfit & ->). split.
        -- intros [= <-]. split; [|reflexivity].
           intros m [[=] | Hm]; auto.
        -- intros (_ & ->). reflexivity.
Qed.

Lemma has_shape_spec s t : has_shape s t = true <-> t = Some s.
Proof.
  unfold has_shape. destruct t as [s'|]; [|split; discriminate].
  destruct (list_eq_dec Nat.eq_dec s' s) as [-> | Hne]; split;
    try reflexivity; try discriminate.
  intros [= ->]. contradiction.
Qed.

(** [np.array] returns the list it is given, and only for elements of
    one shape. *)
Lemma np_array_spec {A : Type} (shape : A -> option (list nat)) l r :
  np_array shape l = ret r <-> homogeneous shape l /\ r = l.
Proof.
  destruct l as [|a l]; cbn [np_array].
  - split.
    + intros [= <-]. split; [exists (@nil nat); intros a [] | reflexivity].
    + intros (_ & ->). reflexivity.
  - destruct (shape a) as [s|] eqn:Ea.
    + destruct (forallb (fun b => has_shape s (shape b)) l) eqn:Ef.
      * split.
        -- intros [= <-]. split; [|reflexivity].
           exists s. intros b [<- | Hb]; [exact Ea|].
           rewrite forallb_forall in Ef. now apply has_shape_spec, Ef.
        -- intros (_ & ->). reflexivity.
      * split; [discriminate|]. intros ((s' & Hs) & _). exfalso.
        assert (Hs' : s' = s).
        { specialize (Hs a (or_introl eq_refl)). congruence. }
        subst s'.
        assert (Ht : forallb (fun b => has_shape s (shape b)) l = true).
        { apply forallb_forall. intros b Hb. apply has_shape_spec.
          apply Hs. now right. }
        congruence.
    + split; [discriminate|]. intros ((s' & Hs) & _).
      specialize (Hs a (or_introl eq_refl)). congruence.
Qed.

Lemma y_to_one_hot_spec {O : Type} {S : Shaped O} (y : list (Z + O)) len r :
  y_to_one_hot y len = ret r <->
  (forall n, In (inl n) y -> - len <= n < len)
  /\ homogeneous entry_shape (map (encode_element len) y)
  /\ r = map (encode_element len) y.
Proof.
  unfold y_to_one_hot.
  destruct (one_hot_entries y len) as [e | l] eqn:E; cbn [bind].
  - split; [discriminate|]. intros (Hfit & _ & _).
    assert (H : one_hot_entries y len = ret (map (encode_element len) y))
      by (apply one_hot_entries_spec; auto).
    rewrite H in E. discriminate.
  - apply one_hot_entries_spec in E. destruct E as (Hfit & ->).
    rewrite np_array_spec. tauto.
Qed.



(** An element that is no sequence, such as [None], beside an [int]:
    the comprehension succeeds and [np.array] refuses the list. *)
Example y_to_one_hot_mixed :
  y_to_one_hot [inl 1; inr tt; inl (-1)] 3 = raise inhomogeneous.
Proof. reflexivity. Qed.

Lemma count_occ_repeat_other (a b : Z) n :
  a <> b -> count_occ Z.eq_dec (repeat a n) b = 0%nat.
Proof.
  intros H. induction n as [|n IH]; simpl; [reflexivity|].
  destruct (Z.eq_dec a b); [contradiction | exact IH].
Qed.

Lemma unit_vector_count position width :
  0 <= position < width ->
  count_occ Z.eq_dec (unit_vector position width) 1 = 1%nat
  /\ forall x, In x (unit_vector position width) -> x = 0 \/ x = 1.
Proof.
  intros H. unfold unit_vector. split.
  - rewrite count_occ_app. cbn [count_occ].
    destruct (Z.eq_dec 1 1); [|congruence].
    rewrite !count_occ_repeat_other by lia. reflexivity.
  - intros x Hx. apply in_app_iff in Hx.
    destruct Hx as [Hx | [Hx | Hx]]; [left | now right | left];
      now apply repeat_spec in Hx.
Qed.

(** X13: whatever [num_to_one_hot] returns has [length] entries, one
    of them 1 and all the others 0. *)
Theorem one_hot_single_bit (num len : Z) (v : list Z) :
  num_to_one_hot num len = ret v ->
  Z.of_nat (length v) = len
  /\ count_occ Z.eq_dec v 1 = 1%nat
  /\ forall x, In x v -> x = 0 \/ x = 1.
Proof.
  intros H. apply num_to_one_hot_ret_inv in H. destruct H as (Hfit & ->).
  apply wrap_index_range in Hfit.
  split; [now apply unit_vector_length | now apply unit_vector_count].
Qed.

Lemma one_hot_single_bit_witness :
  Z.of_nat (length [0; 0; 0; 1]) = 4
  /\ count_occ Z.eq_dec [0; 0; 0; 1] 1 = 1%nat
  /\ forall x, In x [0; 0; 0; 1] -> x = 0 \/ x = 1.
Proof.
  apply (one_hot_single_bit (-1) 4 [0; 0; 0; 1]). reflexivity.
Defined.

Lemma argmax_from_zeros best best_i n : forall i,
  0 <= best -> argmax_from best best_i i (repeat 0 n) = best_i.
Proof.
  induction n as [|n IH]; intros i Hb; cbn [repeat argmax_from];
    [reflexivity|].
  destruct (Z.ltb_spec best 0); [lia | now apply IH].
Qed.

Lemma argmax_from_unit k n : forall i best_i,
  argmax_from 0 best_i i (repeat 0 k ++ 1 :: repeat 0 n) = (i + k)%nat.
Proof.
  induction k as [|k IH]; intros i best_i; cbn [repeat app argmax_from].
  - destruct (Z.ltb_spec 0 1); [|lia].
    rewrite argmax_from_zeros by lia. lia.
  - destruct (Z.ltb_spec 0 0); [lia|]. rewrite IH. lia.
Qed.

Lemma np_argmax_unit_vector position width :
  0 <= position < width ->
  np_argmax (unit_vector position width) = ret position.
Proof.
  intros H. unfold unit_vector.
  destruct (Z.to_nat position) as [|k] eqn:E; cbn [repeat app np_argmax].
  - rewrite argmax_from_zeros by lia. f_equal. lia.
  - rewrite argmax_from_unit. f_equal. lia.
Qed.

(** X14: [np.argmax], as [train_keras_model] applies it, reads from a
    vector of [num_to_one_hot] the label it was made of when that label
    is not negative, and [length + num] for a negative one; so two
    labels get the same vector only if they are equal or [length]
    apart. *)
Theorem one_hot_decodes (num len : Z) (v : list Z) :
  num_to_one_hot num len = ret v ->
  np_argmax v = ret (wrap_index num len)
  /\ (0 <= num -> np_argmax v = ret num)
  /\ forall num', num_to_one_hot num' len = ret v ->
                  num' = num \/ num' = num + len \/ num' = num - len.
Proof.
  intros H. apply num_to_one_hot_ret_inv in H. destruct H as (Hfit & ->).
  pose proof (wrap_index_range num len Hfit) as Hw.
  split; [now apply np_argmax_unit_vector|].
  split.
  - intros Hpos. rewrite np_argmax_unit_vector by exact Hw.
    unfold wrap_index. destruct (Z.ltb_spec num 0); [lia | reflexivity].
  - intros num' H'. apply num_to_one_hot_ret_inv in H'.
    destruct H' as (Hfit' & Hv).
    pose proof (wrap_index_range num' len Hfit') as Hw'.
    apply (f_equal np_argmax) in Hv.
    rewrite !np_argmax_unit_vector in Hv by assumption.
    injection Hv as Hv. unfold wrap_index in Hv.
    destruct (Z.ltb_spec num 0), (Z.ltb_spec num' 0); lia.
Qed.

Lemma one_hot_decodes_witness :
  np_argmax [0; 0; 0; 1] = ret (wrap_index (-1) 4)
  /\ (0 <= -1 -> np_argmax [0; 0; 0; 1] = ret (-1))
  /\ forall num', num_to_one_hot num' 4 = ret [0; 0; 0; 1] ->
                  num' = -1 \/ num' = -1 + 4 \/ num' = -1 - 4.
Proof.
  apply (one_hot_decodes (-1) 4 [0; 0; 0; 1]). reflexivity.
Defined.

Local Close Scope Z_scope.

(** ** [keras_transform_data]: when it returns *)

Local Open Scope Z_scope.

Lemma in_int_label n l : In (inl n) (map int_label l) <-> In n l.
Proof.
  rewrite in_map_iff. unfold int_label. split.
  - intros (m & [= ->] & H). exact H.
  - intros H. eauto.
Qed.

Lemma unit_vector_nat_length position width :
  0 <= position < width ->
  length (unit_vector position width) = Z.to_nat width.
Proof.
  intros H. pose proof (unit_vector_length position width H). lia.
Qed.

(** One-hot vectors of one width stack. *)
Lemma encoded_homogeneous len (l : list Z) :
  (forall n, In n l -> - len <= n < len) ->
  homogeneous entry_shape (map (encode_element len) (map int_label l)).
Proof.
  intros H. exists [Z.to_nat len]. intros a Ha.
  apply in_map_iff in Ha. destruct Ha as (e & <- & He).
  apply in_map_iff in He. destruct He as (n & <- & Hn).
  cbn [int_label encode_element entry_shape].
  rewrite unit_vector_nat_length; [reflexivity|].
  apply wrap_index_range. auto.
Qed.

Lemma encode_labels_spec l len r :
  y_to_one_hot (map int_label l) len = ret r <->
  (forall n, In n l -> - len <= n < len)
  /\ r = map (encode_element len) (map int_label l).
Proof.
  rewrite y_to_one_hot_spec. split.
  - intros (H & _ & ->). split; [|reflexivity].
    intros n Hn. apply H. now apply in_int_label.
  - intros (H & ->). split; [|split; [|reflexivity]].
    + intros n Hn. apply H. now apply in_int_label.
    + now apply encoded_homogeneous.
Qed.

Lemma to_array_spec {A : Type} {S : Shaped A} (x : option (list A)) r :
  to_array x = ret r <->
  exists l, x = Some l /\ homogeneous shape_of l /\ r = l.
Proof.
  unfold to_array. destruct x as [l|]; cbn [iterate bind ret].
  - rewrite np_array_spec. split.
    + intros (H & ->). eauto.
    + intros (l' & [= <-] & H & ->). auto.
  - split; [discriminate | intros (l & H & _); discriminate].
Qed.

Lemma int64_bounds :
  int64_min = -9223372036854775808 /\ int64_max = 9223372036854775807.
Proof. split; reflexivity. Qed.

Lemma wrap_int64_fits n :
  int64_min <= n <= int64_max -> wrap_int64 n = n.
Proof.
  destruct int64_bounds as (-> & ->). intros H. unfold wrap_int64.
  change (2 ^ 63) with 9223372036854775808.
  change (2 ^ 64) with 18446744073709551616.
  rewrite Z.mod_small by lia. lia.
Qed.

Lemma wrap_int64_over : wrap_int64 (int64_max + 1) = int64_min.
Proof. reflexivity. Qed.

Lemma forallb_fits_int64 l :
  forallb fits_int64 l = true <->
  forall n, In n l -> int64_min <= n <= int64_max.
Proof.
  rewrite forallb_forall. unfold fits_int64.
  split; intros H n Hn; specialize (H n Hn).
  - apply andb_prop in H. destruct H as (H1 & H2).
    apply Z.leb_le in H1, H2. lia.
  - apply andb_true_intro. split; apply Z.leb_le; lia.
Qed.

Lemma max_plus_one_eq l :
  l <> [] -> max_plus_one l = ret (wrap_int64 (list_max l + 1)).
Proof. destruct l as [|a l]; [congruence | reflexivity]. Qed.

(** The run on labels that fit [int64], once the width is known. *)
Lemma keras_transform_data_run {X : Type} {S : Shaped X}
    (wide : forall X : Type, Shaped X -> data_split X Z
                             -> result (encoded_split X))
    (d : data_split X Z) (yt : list Z) :
  y_train d = Some yt -> yt <> [] ->
  (forall n, In n yt -> int64_min <= n <= int64_max) ->
  keras_transform_data wide d =
  (let num_labels := wrap_int64 (list_max yt + 1) in
   x_train' <- to_array (x_train d) ;;
   y_train' <- y_to_one_hot (map int_label yt) num_labels ;;
   x_val' <- to_array (x_val d) ;;
   y <- iterate (y_val d) ;;
   y_val' <- y_to_one_hot (map int_label y) num_labels ;;
   x_test' <- to_array (x_test d) ;;
   y <- iterate (y_test d) ;;
   y_test' <- y_to_one_hot (map int_label y) num_labels ;;
   ret (DataSplit (Some x_train') (Some x_val') (Some x_test')
                  (Some y_train') (Some y_val') (Some y_test'))).
Proof.
  intros Hy Hne Hfit. unfold keras_transform_data. rewrite Hy.
  rewrite (proj2 (forallb_fits_int64 yt) Hfit).
  rewrite max_plus_one_eq by exact Hne. reflexivity.
Qed.

(** With every label within the width and features that stack, the
    function returns the labels encoded. *)
Lemma keras_transform_data_returns {X : Type} {S : Shaped X}
    (wide : forall X : Type, Shaped X -> data_split X Z
                             -> result (encoded_split X))
    (xt xv xs : list X) (yt yv ys : list Z) :
  yt <> [] ->
  (forall n, In n yt -> int64_min <= n <= int64_max) ->
  list_max yt < int64_max ->
  homogeneous shape_of xt -> homogeneous shape_of xv ->
  homogeneous shape_of xs ->
  (forall n, In n (yt ++ yv ++ ys) ->
     - (list_max yt + 1) <= n < list_max yt + 1) ->
  keras_transform_data wide
    (DataSplit (Some xt) (Some xv) (Some xs) (Some yt) (Some yv) (Some ys))
  = ret (DataSplit (Some xt) (Some xv) (Some xs)
           (Some (map (encode_element (list_max yt + 1)) (map int_label yt)))
           (Some (map (encode_element (list_max yt + 1)) (map int_label yv)))
           (Some (map (encode_element (list_max yt + 1)) (map int_label ys)))).
Proof.
  intros Hne Hfit Hmax Hxt Hxv Hxs Hin.
  rewrite (keras_transform_data_run wide
             (DataSplit (Some xt) (Some xv) (Some xs)
                        (Some yt) (Some yv) (Some ys))
             yt eq_refl Hne Hfit).
  cbn [x_train x_val x_test y_val y_test iterate]. cbv zeta.
  assert (Hw : wrap_int64 (list_max yt + 1) = list_max yt + 1).
  { apply wrap_int64_fits.
    destruct (list_max_spec yt Hne) as (Hm & _).
    specialize (Hfit _ Hm). lia. }
  rewrite Hw.
  rewrite (proj2 (to_array_spec (Some xt) xt)) by eauto.
  rewrite (proj2 (to_array_spec (Some xv) xv)) by eauto.
  rewrite (proj2 (to_array_spec (Some xs) xs)) by eauto.
  cbn [bind ret].
  rewrite (proj2 (encode_labels_spec yt _ _))
    by (split; [intros n Hn; apply Hin; rewrite !in_app_iff; auto
               | reflexivity]).
  cbn [bind ret].
  rewrite (proj2 (encode_labels_spec yv _ _))
    by (split; [intros n Hn; apply Hin; rewrite !in_app_iff; auto
               | reflexivity]).
  cbn [bind ret].
  rewrite (proj2 (encode_labels_spec ys _ _))
    by (split; [intros n Hn; apply Hin; rewrite !in_app_iff; auto
               | reflexivity]).
  reflexivity.
Qed.

(** X15: for training labels that fit [int64], [keras_transform_data]
    returns exactly when the six entries are present, there is a
    training label, the greatest is below [2^63 - 1], the features of
    each partition all have one shape, and every label of the three
    partitions lies in [-width .. width-1] for
    [width = max(training labels) + 1]; it then returns the features as
    they were and each label as its one-hot vector of that width. *)
Theorem keras_transform_data_returns_iff (X : Type) (S : Shaped X)
    (wide : forall X : Type, Shaped X -> data_split X Z
                             -> result (encoded_split X))
    (d : data_split X Z) (r : encoded_split X) :
  (forall yt n, y_train d = Some yt -> In n yt ->
                int64_min <= n <= int64_max) ->
  (keras_transform_data wide d = ret r <->
   exists xt xv xs yt yv ys,
     d = DataSplit (Some xt) (Some xv) (Some xs) (Some yt) (Some yv) (Some ys)
     /\ yt <> [] /\ list_max yt < int64_max
     /\ homogeneous shape_of xt /\ homogeneous shape_of xv
     /\ homogeneous shape_of xs
     /\ (forall n, In n (yt ++ yv ++ ys) ->
           - (list_max yt + 1) <= n < list_max yt + 1)
     /\ r = DataSplit (Some xt) (Some xv) (Some xs)
              (Some (map (encode_element (list_max yt + 1)) (map int_label yt)))
              (Some (map (encode_element (list_max yt + 1)) (map int_label yv)))
              (Some (map (encode_element (list_max yt + 1)) (map int_label ys)))).
Proof.
  intros Hfit. split.
  - destruct d as [xt xv xs yt yv ys].
    cbn [y_train] in Hfit.
    destruct yt as [yt|]; [|discriminate].
    specialize (Hfit yt). 
    assert (Hfit' : forall n, In n yt -> int64_min <= n <= int64_max)
      by (intros n Hn; now apply Hfit).
    destruct yt as [|a yt].
    { unfold keras_transform_data. cbn. discriminate. }
    rewrite (keras_transform_data_run wide
               (DataSplit xt xv xs (Some (a :: yt)) yv ys)
               (a :: yt) eq_refl)
      by (discriminate || exact Hfit').
    cbn [x_train x_val x_test y_val y_test]. cbv zeta.
    remember (wrap_int64 (list_max (a :: yt) + 1)) as w eqn:Ew.
    destruct (to_array xt) as [e | xt'] eqn:Ext; [discriminate|].
    cbn [bind].
    destruct (y_to_one_hot (map int_label (a :: yt)) w) as [e | rt] eqn:Et;
      [discriminate|].
    cbn [bind].
    destruct (to_array xv) as [e | xv'] eqn:Exv; [discriminate|].
    cbn [bind].
    destruct yv as [yv|]; [|discriminate]. cbn [iterate bind ret].
    destruct (y_to_one_hot (map int_label yv) w) as [e | rv] eqn:Ev;
      [discriminate|].
    cbn [bind].
    destruct (to_array xs) as [e | xs'] eqn:Exs; [discriminate|].
    cbn [bind].
    destruct ys as [ys|]; [|discriminate]. cbn [iterate bind ret].
    destruct (y_to_one_hot (map int_label ys) w) as [e | rs] eqn:Es;
      [discriminate|].
    cbn [bind ret]. intros [= <-].
    apply to_array_spec in Ext, Exv, Exs.
    destruct Ext as (xt0 & -> & Hxt & ->), Exv as (xv0 & -> & Hxv & ->),
             Exs as (xs0 & -> & Hxs & ->).
    apply encode_labels_spec in Et, Ev, Es.
    destruct Et as (Ht & ->), Ev as (Hv & ->), Es as (Hs & ->).
    assert (Hne : a :: yt <> []) by discriminate.
    destruct (list_max_spec (a :: yt) Hne) as (Hm & _).
    assert (Hlt : list_max (a :: yt) < int64_max).
    { destruct (Z_lt_ge_dec (list_max (a :: yt)) int64_max) as [H | H];
        [exact H|].
      exfalso. pose proof (Hfit' _ Hm) as Hfm.
      assert (Heq : list_max (a :: yt) = int64_max) by lia.
      rewrite Heq, wrap_int64_over in Ew.
      specialize (Ht _ Hm). subst w. lia. }
    assert (Hw : w = list_max (a :: yt) + 1).
    { subst w. apply wrap_int64_fits. specialize (Hfit' _ Hm). lia. }
    rewrite Hw in *.
    exists xt0, xv0, xs0, (a :: yt), yv, ys.
    repeat (split; [first [reflexivity | assumption]|]).
    split; [|reflexivity].
    intros n Hn. rewrite !in_app_iff in Hn.
    destruct Hn as [Hn | [Hn | Hn]]; auto.
  - intros (xt & xv & xs & yt & yv & ys & -> & Hne & Hlt & Hxt & Hxv & Hxs
            & Hin & ->).
    apply keras_transform_data_returns; auto.
    intros n Hn. now apply (Hfit yt).
Qed.

Lemma keras_transform_data_returns_iff_witness :
  keras_transform_data (fun X _ _ => raise inhomogeneous)
    (DataSplit (Some [[1; 2]; [3; 4]]) (Some [[5; 6]]) (Some [[7; 8]])
               (Some [0; 2]) (Some [-1]) (Some [1]))
  = ret (DataSplit (Some [[1; 2]; [3; 4]]) (Some [[5; 6]]) (Some [[7; 8]])
           (Some [inl [1; 0; 0]; inl [0; 0; 1]])
           (Some [inl [0; 0; 1]])
           (Some [inl [0; 1; 0]])).
Proof.
  assert (Hfit : forall yt n,
            y_train (DataSplit (Some [[1; 2]; [3; 4]]) (Some [[5; 6]])
                               (Some [[7; 8]]) (Some [0; 2]) (Some [-1])
                               (Some [1])) = Some yt ->
            In n yt -> int64_min <= n <= int64_max).
  { intros yt n [= <-] Hn. cbn in Hn.
    destruct int64_bounds as (-> & ->). lia. }
  apply (proj2 (keras_transform_data_returns_iff (list Z) Shaped_vector
                  (fun X _ _ => raise inhomogeneous) _ _ Hfit)).
  exists [[1; 2]; [3; 4]], [[5; 6]], [[7; 8]], [0; 2], [-1], [1].
  split; [reflexivity|]. split; [discriminate|].
  split; [destruct int64_bounds as (_ & ->); cbn; lia|].
  split; [exists [2%nat]; intros a [<- | [<- | []]]; reflexivity|].
  split; [exists [2%nat]; intros a [<- | []]; reflexivity|].
  split; [exists [2%nat]; intros a [<- | []]; reflexivity|].
  split; [|reflexivity].
  intros n Hn. cbn in Hn. cbn. lia.
Defined.

(** Feature lists of different lengths do not stack: [np.array]
    raises before any label is encoded. *)
Example keras_transform_data_ragged :
  keras_transform_data (fun X _ _ => raise inhomogeneous)
    (DataSplit (Some [[1; 2]; [3]]) (Some [[5; 6]]) (Some [[7; 8]])
               (Some [0; 2]) (Some [1]) (Some [1]))
  = raise inhomogeneous.
Proof. reflexivity. Qed.

(** X16: the notebook's own sequence of calls stops here: given what
    [split_dataset] returns, [keras_transform_data] raises a
    [TypeError], whatever the data. *)
Theorem keras_transform_data_after_split :
  forall (X : Type) (S : Shaped X)
         (wide : forall X : Type, Shaped X -> data_split X Z
                                  -> result (encoded_split X))
         (x : list X) (y : list Z) (random_seed : Z),
    keras_transform_data wide (split_dataset x y random_seed)
    = raise (TypeError "unsupported operand type(s) for +: 'NoneType' and 'int'").
Proof. reflexivity. Qed.

(** ** The width and the labels within it *)

Lemma encode_nonneg width (l : list Z) :
  (forall n, In n l -> 0 <= n) ->
  map (encode_element width) (map int_label l) = map (encoded width) l.
Proof.
  induction l as [|a l IH]; intros H; [reflexivity|].
  cbn [map int_label encode_element]. unfold encoded at 1, wrap_index.
  destruct (Z.ltb_spec a 0) as [Hneg | _].
  - specialize (H a (or_introl eq_refl)). lia.
  - rewrite IH by (intros n Hn; apply H; now right). reflexivity.
Qed.




Local Close Scope Z_scope.

(** ** [format_dataset] *)

Lemma firstn_snoc {A} (l : list A) : forall k x,
  nth_error l k = Some x -> firstn (S k) l = firstn k l ++ [x].
Proof.
  induction l as [|a l IH]; intros [|k] x H; try discriminate.
  - injection H as <-. reflexivity.
  - cbn [nth_error] in H. change (firstn (S (S k)) (a :: l))
      with (a :: firstn (S k) l).
    now rewrite (IH k x H).
Qed.

Lemma getitem_lt {A} (l : list A) i :
  i < length l -> exists a, nth_error l i = Some a /\ getitem l i = ret a.
Proof.
  intros H. unfold getitem.
  destruct (nth_error l i) as [a|] eqn:E; [eauto|].
  apply nth_error_None in E. lia.
Qed.

Lemma np_getitem_lt {A} (l : list A) i :
  i < length l -> exists a, nth_error l i = Some a /\ np_getitem l i = ret a.
Proof.
  intros H. unfold np_getitem.
  destruct (nth_error l i) as [a|] eqn:E; [eauto|].
  apply nth_error_None in E. lia.
Qed.

Lemma getitem_cases {A} (l : list A) i :
  (exists a, i < length l /\ getitem l i = ret a)
  \/ (length l <= i /\ exists msg, getitem l i = raise (IndexError msg)).
Proof.
  unfold getitem. destruct (nth_error l i) as [a|] eqn:E.
  - left. exists a. split; [|reflexivity].
    apply nth_error_Some. congruence.
  - right. apply nth_error_None in E. eauto.
Qed.

Lemma np_getitem_cases {A} (l : list A) i :
  (exists a, i < length l /\ np_getitem l i = ret a)
  \/ (length l <= i /\ exists msg, np_getitem l i = raise (IndexError msg)).
Proof.
  unfold np_getitem. destruct (nth_error l i) as [a|] eqn:E.
  - left. exists a. split; [|reflexivity].
    apply nth_error_Some. congruence.
  - right. apply nth_error_None in E. eauto.
Qed.

Lemma format_loop_ok {V} pd (vectors : list V) : forall m k,
  k + m <= length (key_text_transformed pd) ->
  k + m <= length vectors ->
  k + m <= length (key_text pd) ->
  k + m <= length (key_stars pd) ->
  format_loop pd vectors (seq k m)
    (firstn k (key_text_transformed pd), firstn k (key_text pd),
     firstn k vectors, firstn k (key_stars pd))
  = ret (firstn (k + m) (key_text_transformed pd),
         firstn (k + m) (key_text pd),
         firstn (k + m) vectors, firstn (k + m) (key_stars pd)).
Proof.
  induction m as [|m IH]; intros k H1 H2 H3 H4.
  - cbn [seq format_loop]. now rewrite Nat.add_0_r.
  - cbn [seq format_loop].
    destruct (getitem_lt (key_text_transformed pd) k) as (t & Et & ->); [lia|].
    destruct (np_getitem_lt vectors k) as (v & Ev & ->); [lia|].
    destruct (getitem_lt (key_text pd) k) as (f & Ef & ->); [lia|].
    destruct (getitem_lt (key_stars pd) k) as (n & En & ->); [lia|].
    cbn [bind ret].
    rewrite <- !firstn_snoc by assumption.
    rewrite IH by lia. now rewrite Nat.add_succ_r.
Qed.

Lemma format_loop_raises {V} pd (vectors : list V) i : forall indices acc,
  In i indices ->
  length vectors <= i \/ length (key_text pd) <= i
  \/ length (key_stars pd) <= i ->
  exists msg, format_loop pd vectors indices acc = raise (IndexError msg).
Proof.
  induction indices as [|j indices IH]; intros acc Hin Hshort; [destruct Hin|].
  destruct acc as [[[x xf] xv] y]. cbn [format_loop].
  destruct (getitem_cases (key_text_transformed pd) j)
    as [(t & _ & ->) | (_ & msg & ->)]; [|eexists; reflexivity].
  destruct (np_getitem_cases vectors j)
    as [(v & Hv & ->) | (_ & msg & ->)]; [|eexists; reflexivity].
  destruct (getitem_cases (key_text pd) j)
    as [(f & Hf & ->) | (_ & msg & ->)]; [|eexists; reflexivity].
  destruct (getitem_cases (key_stars pd) j)
    as [(n & Hn & ->) | (_ & msg & ->)]; [|eexists; reflexivity].
  cbn [bind ret].
  destruct Hin as [-> | Hin]; [lia | now apply IH].
Qed.

(** X17: [format_dataset] returns exactly when the vectors, the texts
    and the stars are at least as many as the token lists; it then
    returns the token lists and as many texts, vectors and stars, in
    order, leaving out what lies beyond.  Otherwise it raises an
    [IndexError]. *)
Theorem format_dataset_returns (V : Type) (pd : preprocessed)
    (vectors : list V) :
  let n := length (key_text_transformed pd) in
  (n <= length vectors /\ n <= length (key_text pd)
   /\ n <= length (key_stars pd) ->
   format_dataset pd vectors
   = ret (key_text_transformed pd, firstn n (key_text pd),
          firstn n vectors, firstn n (key_stars pd)))
  /\ (length vectors < n \/ length (key_text pd) < n
      \/ length (key_stars pd) < n ->
      exists msg, format_dataset pd vectors = raise (IndexError msg)).
Proof.
  intros n. split.
  - intros (H1 & H2 & H3). unfold format_dataset. fold n.
    pose proof (format_loop_ok pd vectors n 0) as H.
    cbn [firstn Nat.add] in H. rewrite H by lia.
    unfold n at 1. now rewrite firstn_all.
  - intros H. unfold format_dataset. fold n.
    destruct H as [H | [H | H]].
    + apply (format_loop_raises pd vectors (length vectors));
        [apply in_seq; lia | lia].
    + apply (format_loop_raises pd vectors (length (key_text pd)));
        [apply in_seq; lia | lia].
    + apply (format_loop_raises pd vectors (length (key_stars pd)));
        [apply in_seq; lia | lia].
Qed.

Lemma format_dataset_returns_witness :
  format_dataset
    (Preprocessed [lit "u"; lit "v"] [[lit "gut"]; []]
                  [lit "gut"; lit "naja"] [5; 3]%Z)
    [1; 2; 3]
  = ret ([[lit "gut"]; []], [lit "gut"; lit "naja"], [1; 2], [5; 3]%Z)
  /\ exists msg,
       format_dataset
         (Preprocessed [lit "u"; lit "v"] [[lit "gut"]; []]
                       [lit "gut"; lit "naja"] [5; 3]%Z)
         [1]
       = raise (IndexError msg).
Proof.
  split.
  - apply (proj1 (format_dataset_returns nat
             (Preprocessed [lit "u"; lit "v"] [[lit "gut"]; []]
                           [lit "gut"; lit "naja"] [5; 3]%Z) [1; 2; 3])).
    simpl. lia.
  - apply (proj2 (format_dataset_returns nat
             (Preprocessed [lit "u"; lit "v"] [[lit "gut"]; []]
                           [lit "gut"; lit "naja"] [5; 3]%Z) [1])).
    left. simpl. lia.
Defined.

(** ** [create_preprocessed_dataset] *)

Lemma process_row_not_german classify row :
  german classify row = false -> process_row classify true row = ret None.
Proof.
  intros Eg.
  destruct row as [|r0 [|r1 [|r2 tl]]];
    try (apply process_row_rejected, structural_reject_short; simpl; lia).
  rewrite process_row_cons3. unfold german in Eg. cbn [skipn] in Eg.
  cbv zeta. rewrite Eg.
  destruct (in_blank r0 || in_blank r1 || in_blank r2); reflexivity.
Qed.

Lemma preprocess_all_dropped classify enable rows :
  (forall row, In row rows -> process_row classify enable row = ret None) ->
  preprocess_movie_data classify rows enable = ret [].
Proof.
  unfold preprocess_movie_data.
  induction rows as [|row rows IH]; intros H; [reflexivity|].
  cbn [preprocess_loop]. rewrite (H row (or_introl eq_refl)). cbn [bind ret].
  apply IH. intros r Hr. apply H. now right.
Qed.

Lemma create_inv classify read_csv path fs pd fs' :
  create_preprocessed_dataset classify read_csv path fs = (ret pd, fs') ->
  exists rows md,
    read_csv path (lit "utf-8") [newline] ["009"%char] = ret rows
    /\ preprocess_movie_data classify rows true = ret md
    /\ md <> []
    /\ pd = Preprocessed (map url md) (map tokens md) (map text md)
                         (map stars md)
    /\ fs' = (DATA_FOLDER ++ lit "preprocessed_notebook.json", pd) :: fs.
Proof.
  unfold create_preprocessed_dataset.
  destruct (read_csv path (lit "utf-8") [newline] ["009"%char])
    as [e | rows] eqn:Er; [discriminate|].
  cbn [bind].
  destruct (preprocess_movie_data classify rows true) as [e | md] eqn:Ep;
    [discriminate|].
  cbn [bind]. destruct md as [|r md]; [discriminate|].
  cbn [unzip_records bind ret]. intros H.
  injection H as Hpd Hfs. subst pd fs'.
  exists rows, (r :: md). repeat split; auto. discriminate.
Qed.

(** X18: when [create_preprocessed_dataset] returns, at least one row
    of the file was kept, the four lists of the dictionary have one
    entry per record of [preprocess_movie_data] (language filter on),
    in the same order, and so the same length; that dictionary is what
    was written to [./data/preprocessed_notebook.json]. *)
Theorem create_preprocessed_dataset_aligned (classify : str -> str)
    (read_csv : str -> str -> str -> str -> result (list (list str)))
    (path : str) (fs fs' : files) (pd : preprocessed) :
  create_preprocessed_dataset classify read_csv path fs = (ret pd, fs') ->
  exists rows md,
    read_csv path (lit "utf-8") [newline] ["009"%char] = ret rows
    /\ preprocess_movie_data classify rows true = ret md
    /\ md <> []
    /\ key_url pd = map url md
    /\ key_text_transformed pd = map tokens md
    /\ key_text pd = map text md
    /\ key_stars pd = map stars md
    /\ length (key_url pd) = length md
    /\ length (key_text_transformed pd) = length md
    /\ length (key_text pd) = length md
    /\ length (key_stars pd) = length md
    /\ fs' = (DATA_FOLDER ++ lit "preprocessed_notebook.json", pd) :: fs.
Proof.
  intros H. apply create_inv in H.
  destruct H as (rows & md & Hr & Hp & Hne & -> & ->).
  exists rows, md. cbn [key_url key_text_transformed key_text key_stars].
  rewrite !length_map. repeat split; auto.
Qed.

Lemma create_preprocessed_dataset_aligned_witness :
  exists rows md,
    ret [[lit "u"; lit "5"; lit "gut"]; [lit "x"]] = ret rows
    /\ preprocess_movie_data (fun _ => lit "de") rows true = ret md
    /\ md <> []
    /\ [lit "u"] = map url md
    /\ [[]] = map tokens md
    /\ [lit "gut"] = map text md
    /\ [5%Z] = map stars md
    /\ 1 = length md /\ 1 = length md /\ 1 = length md /\ 1 = length md
    /\ [(lit "./data/preprocessed_notebook.json",
         Preprocessed [lit "u"] [[]] [lit "gut"] [5%Z])]
       = (DATA_FOLDER ++ lit "preprocessed_notebook.json",
          Preprocessed [lit "u"] [[]] [lit "gut"] [5%Z]) :: [].
Proof.
  apply (create_preprocessed_dataset_aligned (fun _ => lit "de")
           (fun _ _ _ _ => ret [[lit "u"; lit "5"; lit "gut"]; [lit "x"]])
           (lit "./data/film_review.tsv") []
           [(lit "./data/preprocessed_notebook.json",
             Preprocessed [lit "u"] [[]] [lit "gut"] [5%Z])]
           (Preprocessed [lit "u"] [[]] [lit "gut"] [5%Z])).
  vm_compute. reflexivity.
Defined.

(** X19: when the file is read but every row is dropped, by the
    structural filter or as not German (an empty file for one), there
    is nothing to unpack: [create_preprocessed_dataset] raises a
    [ValueError] and writes no file. *)
Theorem create_preprocessed_dataset_no_record (classify : str -> str)
    (read_csv : str -> str -> str -> str -> result (list (list str)))
    (path : str) (fs : files) (rows : list (list str)) :
  read_csv path (lit "utf-8") [newline] ["009"%char] = ret rows ->
  (forall row, In row rows ->
     structural_reject row = ret true \/ german classify row = false) ->
  create_preprocessed_dataset classify read_csv path fs
  = (raise (ValueError "not enough values to unpack (expected 4, got 0)"), fs).
Proof.
  intros Hr Hdrop. unfold create_preprocessed_dataset. rewrite Hr.
  cbn [bind ret]. rewrite preprocess_all_dropped; [reflexivity|].
  intros row Hrow. destruct (Hdrop row Hrow) as [H | H].
  - now apply process_row_rejected.
  - now apply process_row_not_german.
Qed.

Lemma create_preprocessed_dataset_no_record_witness :
  create_preprocessed_dataset
    (fun t => if str_eqb t (lit "good film") then lit "en" else lit "de")
    (fun _ _ _ _ => ret [[lit "u"; lit "5"; lit "good film"]; []])
    (lit "./data/film_review.tsv") []
  = (raise (ValueError "not enough values to unpack (expected 4, got 0)"), []).
Proof.
  apply (create_preprocessed_dataset_no_record _ _ _ _
           [[lit "u"; lit "5"; lit "good film"]; []]).
  - reflexivity.
  - intros row [<- | [<- | []]]; [right | left]; reflexivity.
Defined.

(** X20: the dictionary [create_preprocessed_dataset] returns always
    suits [format_dataset]: with at least as many vectors as token
    lists, it returns the token lists, the texts and the stars whole,
    and the vectors of the same number. *)
Theorem format_after_create (V : Type) (classify : str -> str)
    (read_csv : str -> str -> str -> str -> result (list (list str)))
    (path : str) (fs fs' : files) (pd : preprocessed) (vectors : list V) :
  create_preprocessed_dataset classify read_csv path fs = (ret pd, fs') ->
  length (key_text_transformed pd) <= length vectors ->
  format_dataset pd vectors
  = ret (key_text_transformed pd, key_text pd,
         firstn (length (key_text_transformed pd)) vectors, key_stars pd).
Proof.
  intros H Hv. apply create_inv in H.
  destruct H as (rows & md & _ & _ & _ & -> & _).
  cbn [key_text_transformed key_text key_stars] in *.
  unfold format_dataset. cbn [key_text_transformed].
  pose proof (format_loop_ok
                (Preprocessed (map url md) (map tokens md) (map text md)
                              (map stars md))
                vectors (length (map tokens md)) 0) as Hloop.
  cbn [firstn Nat.add key_text_transformed key_text key_stars] in Hloop.
  rewrite Hloop by (rewrite ?length_map in *; lia).
  set (n := length (map tokens md)).
  assert (Hn : n = length md) by apply length_map.
  rewrite (firstn_all2 (n := n) (map tokens md)),
    (firstn_all2 (n := n) (map text md)),
    (firstn_all2 (n := n) (map stars md)) by (rewrite length_map; lia).
  reflexivity.
Qed.

Lemma format_after_create_witness :
  format_dataset (Preprocessed [lit "u"] [[]] [lit "gut"] [5%Z]) [7; 8]
  = ret ([[]], [lit "gut"], [7], [5%Z]).
Proof.
  apply (format_after_create nat (fun _ => lit "de")
           (fun _ _ _ _ => ret [[lit "u"; lit "5"; lit "gut"]; [lit "x"]])
           (lit "./data/film_review.tsv") []
           [(lit "./data/preprocessed_notebook.json",
             Preprocessed [lit "u"] [[]] [lit "gut"] [5%Z])]).
  - vm_compute. reflexivity.
  - simpl. lia.
Defined.

(** ** [preprocess_movie_data]: which rows are dropped and which raise *)

Lemma preprocess_raise_inv classify enable rows e :
  preprocess_movie_data classify rows enable = raise e -> e = invalid_literal.
Proof.
  unfold preprocess_movie_data. generalize (@nil review).
  induction rows as [|row rows IH]; intros acc H; [discriminate|].
  cbn [preprocess_loop] in H.
  destruct (process_row classify enable row) as [e' | o] eqn:Er; cbn [bind] in H.
  - injection H as <-. now apply process_row_raises in Er.
  - destruct o; now apply IH in H.
Qed.

Lemma process_row_bad_stars classify enable row r1 :
  structural_reject row = ret false ->
  enable = false \/ german classify row = true ->
  nth_error row 1 = Some r1 -> (forall n, py_int r1 <> ret n) ->
  process_row classify enable row = raise invalid_literal.
Proof.
  intros Hrej Hlang H1 Hint.
  destruct row as [|r0 [|r1' [|r2 tl]]]; try discriminate.
  injection H1 as ->.
  rewrite structural_reject_cons3 in Hrej. injection Hrej as Hrej.
  rewrite process_row_cons3, Hrej. cbv zeta.
  assert (Hl : enable && negb (str_eqb (classify (join (lit " ") (r2 :: tl)))
                                 (lit "de")) = false).
  { destruct Hlang as [-> | Hg]; [reflexivity|].
    unfold german in Hg. cbn [skipn] in Hg. rewrite Hg.
    now destruct enable. }
  rewrite Hl.
  destruct (clean_text_returns (join (lit " ") (r2 :: tl))) as (u & ->).
  cbn [bind ret].
  destruct (py_int r1) as [e | n] eqn:Ei.
  - apply py_int_raises in Ei as He. now subst e.
  - exfalso. now apply (Hint n).
Qed.

(** C8, as the code has it: a row the structural filter or the
    language filter rejects gives no record and the loop goes on, the
    outcome being that of the other rows; when every row that passes
    the structural filter has a stars field [int] can parse, the
    function returns, and its result holds, in order, the record of
    each row that was not dropped; and a row that passes the filters
    with a stars field [int] cannot parse makes the function raise the
    [ValueError] of [int]. *)
Theorem rejected_rows_dropped (classify : str -> str) (enable : bool)
    (rows : list (list str)) :
  (forall pre row post,
     rows = pre ++ row :: post ->
     structural_reject row = ret true
     \/ (enable = true /\ german classify row = false) ->
     process_row classify enable row = ret None
     /\ preprocess_movie_data classify rows enable
        = preprocess_movie_data classify (pre ++ post) enable)
  /\ ((forall row r1, In row rows -> structural_reject row = ret false ->
                      nth_error row 1 = Some r1 ->
                      exists n, py_int r1 = ret n) ->
      (forall row, In row rows ->
         process_row classify enable row = ret None
         \/ exists r, process_row classify enable row = ret (Some r))
      /\ preprocess_movie_data classify rows enable
         = ret (flat_map (fun row =>
                            match process_row classify enable row with
                            | inr (Some r) => [r]
                            | _ => []
                            end) rows))
  /\ (forall row r1,
        In row rows -> structural_reject row = ret false ->
        enable = false \/ german classify row = true ->
        nth_error row 1 = Some r1 -> (forall n, py_int r1 <> ret n) ->
        preprocess_movie_data classify rows enable = raise invalid_literal).
Proof.
  split; [|split].
  - intros pre row post -> Hdrop.
    assert (Hnone : process_row classify enable row = ret None).
    { destruct Hdrop as [H | (-> & H)];
        [now apply process_row_rejected | now apply process_row_not_german]. }
    split; [exact Hnone|].
    unfold preprocess_movie_data. now apply preprocess_loop_skip.
  - apply preprocess_returns_when_parseable.
  - intros row r1 Hin Hrej Hlang H1 Hint.
    apply in_split in Hin. destruct Hin as (pre & post & ->).
    rewrite preprocess_movie_data_app.
    destruct (preprocess_movie_data classify pre enable) as [e | out] eqn:Ep;
      cbn [bind].
    + apply preprocess_raise_inv in Ep. now subst e.
    + unfold preprocess_movie_data at 1. cbn [preprocess_loop].
      rewrite (process_row_bad_stars classify enable row r1 Hrej Hlang H1 Hint).
      reflexivity.
Qed.

Lemma rejected_rows_dropped_witness :
  preprocess_movie_data (fun _ => lit "de")
    [[lit "http://a"; lit "5"; lit "Das war super super toll"];
     [lit "http://b"; lit ""; lit "bad"];
     [lit "x"]] true
  = preprocess_movie_data (fun _ => lit "de")
      ([[lit "http://a"; lit "5"; lit "Das war super super toll"]]
         ++ [[lit "x"]]) true
  /\ preprocess_movie_data (fun _ => lit "de")
       [[lit "http://a"; lit "5"; lit "Das war super super toll"];
        [lit "http://b"; lit ""; lit "bad"];
        [lit "x"]] true
     = ret [Review (lit "http://a") 5 (lit "Das war super super toll") []]
  /\ preprocess_movie_data (fun _ => lit "de")
       [[lit "http://a"; lit "5"; lit "gut"];
        [lit "http://b"; lit "4.5"; lit "naja"]] true
     = raise invalid_literal.
Proof.
  split; [|split].
  - apply (proj1 (rejected_rows_dropped (fun _ => lit "de") true
      [[lit "http://a"; lit "5"; lit "Das war super super toll"];
       [lit "http://b"; lit ""; lit "bad"];
       [lit "x"]])
      [[lit "http://a"; lit "5"; lit "Das war super super toll"]]
      [lit "http://b"; lit ""; lit "bad"] [[lit "x"]] eq_refl).
    left. reflexivity.
  - refine (eq_trans (proj2 (proj1 (proj2
      (rejected_rows_dropped (fun _ => lit "de") true
        [[lit "http://a"; lit "5"; lit "Das war super super toll"];
         [lit "http://b"; lit ""; lit "bad"];
         [lit "x"]])) _)) _).
    + intros row r1 [<- | [<- | [<- | []]]] Hrej [= <-].
      * exists 5%Z. reflexivity.
      * vm_compute in Hrej. discriminate.
    + vm_compute. reflexivity.
  - apply (proj2 (proj2 (rejected_rows_dropped (fun _ => lit "de") true
      [[lit "http://a"; lit "5"; lit "gut"];
       [lit "http://b"; lit "4.5"; lit "naja"]]))
      [lit "http://b"; lit "4.5"; lit "naja"] (lit "4.5")).
    + right. left. reflexivity.
    + reflexivity.
    + right. reflexivity.
    + reflexivity.
    + intros n H. vm_compute in H. discriminate.
Defined.
